(** * Swap-event ingestion, order-flow analytics and state normalisation

    A shallow embedding of three Python modules of the trading skill:

    - [collectors/swap-collector.py]  (module [SwapCollector]),
    - [analysis/order_flow.py]        (module [OrderFlow]),
    - [state_normalizer.py]           (module [StateNormalizer]).

    Conventions of the embedding.

    - Python [int] is [Z]; a chain head returned by the node is an [N].
    - Python [dict] used as a keyed store is a [gmap]; a [dict] whose
      insertion order is observable is an association list.
    - An exception caught by [try/except] is [None]; the handler is the
      [None] branch.
    - Python [float] (and numpy float32/float64) arithmetic is taken over the
      rationals [Q]: every quotient and product is the exact one, which the
      interpreter rounds to binary64.  Equalities between such values are
      therefore stated with [==]. *)

From Stdlib Require Import ZArith QArith Qminmax Qround Qabs Qfield.
From Stdlib Require Import String List Lia Permutation Sorted.
From stdpp Require Import base option gmap strings list sorting.

Local Open Scope Z_scope.

(** ** Python built-ins shared by the modules *)

Module Py.

(** [range(start, stop, step)] for a positive [step]. *)
Fixpoint range_from (n : nat) (start step : Z) : list Z :=
  match n with
  | O => []
  | S n' => start :: range_from n' (start + step) step
  end.

Definition range (start stop step : Z) : list Z :=
  range_from (Z.to_nat ((stop - start + step - 1) / step)) start step.

(** [l[i:]] and [l[:j]] with Python's treatment of negative and
    out-of-range indices. *)
Definition slice_index {A} (l : list A) (i : Z) : nat :=
  let n := Z.of_nat (length l) in
  Z.to_nat (if i <? 0 then Z.max (n + i) 0 else Z.min i n).

Definition slice_from {A} (l : list A) (i : Z) : list A :=
  drop (slice_index l i) l.

Definition slice_to {A} (l : list A) (j : Z) : list A :=
  take (slice_index l j) l.

(** [int(x)] on a float: truncation towards zero. *)
Definition int_of_float (q : Q) : Z := Z.quot (Qnum q) (Zpos (Qden q)).

(** [x > y] on floats. *)
Definition gt (x y : Q) : bool := if Qlt_le_dec y x then true else false.

(** [sum] over integers. *)
Definition sum (l : list Z) : Z := fold_left Z.add l 0.

End Py.

(** ** collectors/swap-collector.py *)

Module SwapCollector.

(** A raw log record as the node returns it. *)
Record Log := {
  blockNumber : Z;
  transactionHash : string;
  logIndex : Z;
  log_data : string
}.

(** The decoded arguments of the [Swap] event ([POOL_ABI]). *)
Record SwapArgs := {
  arg_sender : string;
  arg_recipient : string;
  arg_amount0 : Z;
  arg_amount1 : Z;
  arg_sqrtPriceX96 : Z;
  arg_liquidity : Z;
  arg_tick : Z
}.

Inductive Direction := sell_token0 | buy_token0.

(** The dictionary built for each decoded log.  The amounts are written
    with [str] and read back with [int]; the record holds the integer. *)
Record Swap := {
  block : Z;
  tx_hash : string;
  log_index : Z;
  timestamp : Z;
  datetime : string;
  sender : string;
  recipient : string;
  amount0 : Z;
  amount1 : Z;
  sqrt_price_x96 : Z;
  liquidity : Z;
  tick : Z;
  direction : Direction
}.

(** A line of a daily file: the swap with the two keys [collect_pool]
    adds before writing it. *)
Record StoredSwap := {
  stored : Swap;
  pool : string;
  pool_name : string
}.

(** The node as the collector uses it ([self.w3]).  A call that raises is
    [None]. *)
Record Web3 := {
  block_number : N;
  get_logs : string -> Z -> Z -> option (list Log);
  process_log : Log -> option SwapArgs;
  get_block : Z -> option Z
}.

(** The files under [DATA_DIR]: [last_block.json] (absent before the
    first write) and one append-only file per pool and day. *)
Record Store := {
  last_block_file : option (gmap string Z);
  daily_files : gmap (string * string) (list StoredSwap)
}.

Definition BATCH_SIZE : Z := 25.

Section Collector.

(** [datetime.utcfromtimestamp(ts).isoformat()]. *)
Variable utc_isoformat : Z -> string.

Definition get_last_block (st : Store) (name : string) : Z :=
  match last_block_file st with
  | Some data => default 0 (data !! name)
  | None => 0
  end.

Definition save_last_block (st : Store) (name : string) (blk : Z) : Store :=
  let data := match last_block_file st with
              | Some d => d
              | None => ∅
              end in
  {| last_block_file := Some (<[name := blk]> data);
     daily_files := daily_files st |}.

(** One turn of the batch loop: the logs of the sub-range are added, or
    the sub-range is skipped when the query raises. *)
Definition fetch_batch (w3 : Web3) (pool_address : string) (to_block : Z)
    (logs : list Log) (batch_start : Z) : list Log :=
  let batch_end := Z.min (batch_start + BATCH_SIZE - 1) to_block in
  match get_logs w3 pool_address batch_start batch_end with
  | Some batch_logs => logs ++ batch_logs
  | None => logs
  end.

Definition direction_of (amount0 : Z) : Direction :=
  if decide (amount0 > 0) then sell_token0 else buy_token0.

(** The body of the decoding loop; [None] when decoding the log or
    fetching its block raises. *)
Definition decode_log (w3 : Web3) (log : Log) : option Swap :=
  event ← process_log w3 log;
  ts ← get_block w3 (blockNumber log);
  Some {| block := blockNumber log;
          tx_hash := transactionHash log;
          log_index := logIndex log;
          timestamp := ts;
          datetime := utc_isoformat ts;
          sender := arg_sender event;
          recipient := arg_recipient event;
          amount0 := arg_amount0 event;
          amount1 := arg_amount1 event;
          sqrt_price_x96 := arg_sqrtPriceX96 event;
          liquidity := arg_liquidity event;
          tick := arg_tick event;
          direction := direction_of (arg_amount0 event) |}.

Definition fetch_logs (w3 : Web3) (pool_address : string)
    (from_block to_block : Z) : list Log :=
  fold_left (fetch_batch w3 pool_address to_block)
            (Py.range from_block (to_block + 1) BATCH_SIZE) [].

Definition get_swaps (w3 : Web3) (pool_address : string)
    (from_block to_block : Z) : list Swap :=
  omap (decode_log w3) (fetch_logs w3 pool_address from_block to_block).

Definition append_daily (st : Store) (name date_str pool_address : string)
    (swaps : list Swap) : Store :=
  let lines := (fun s => {| stored := s; pool := pool_address;
                            pool_name := name |}) <$> swaps in
  {| last_block_file := last_block_file st;
     daily_files :=
       <[(name, date_str) := default [] (daily_files st !! (name, date_str)) ++ lines]>
         (daily_files st) |}.

Definition start_block (st : Store) (name : string)
    (current_block lookback_blocks : Z) : Z :=
  let last_block := get_last_block st name in
  if decide (last_block = 0) then current_block - lookback_blocks
  else last_block + 1.

(** [collect_pool]: the count it returns and the files it leaves.
    [date_str] is the day read from the clock when the file is opened. *)
Definition collect_pool (w3 : Web3) (st : Store) (name pool_address : string)
    (lookback_blocks : Z) (date_str : string) : nat * Store :=
  let current_block := Z.of_N (block_number w3) in
  let from_block := start_block st name current_block lookback_blocks in
  if decide (from_block >= current_block) then (0%nat, st)
  else
    let swaps := get_swaps w3 pool_address from_block current_block in
    let st1 := match swaps with
               | [] => st
               | _ => append_daily st name date_str pool_address swaps
               end in
    (length swaps, save_last_block st1 name current_block).

(** A sync request: the node as seen at that moment, and the arguments. *)
Record Call := {
  call_w3 : Web3;
  call_name : string;
  call_address : string;
  call_lookback : Z;
  call_date : string
}.

Definition run_call (st : Store) (c : Call) : Store :=
  snd (collect_pool (call_w3 c) st (call_name c) (call_address c)
                    (call_lookback c) (call_date c)).

Definition run_calls (st : Store) (cs : list Call) : Store :=
  fold_left run_call cs st.

End Collector.

End SwapCollector.


(** ** analysis/order_flow.py *)

Module OrderFlow.

Import SwapCollector.

(** A [defaultdict] in insertion order.  [touch k f dflt d] is the statement
    [d[k] = f(d[k])]: a missing key is created with the default value at the
    end of the dictionary, then updated. *)
Fixpoint touch {V} (k : string) (f : V -> V) (dflt : V)
    (d : list (string * V)) : list (string * V) :=
  match d with
  | [] => [(k, f dflt)]
  | (k', v) :: d' =>
      if decide (k' = k) then (k', f v) :: d'
      else (k', v) :: touch k f dflt d'
  end.

Fixpoint get {V} (k : string) (d : list (string * V)) : option V :=
  match d with
  | [] => None
  | (k', v) :: d' => if decide (k' = k) then Some v else get k d'
  end.

Definition keys {V} (d : list (string * V)) : list string := fst <$> d.

(** *** analyze_wallet_activity *)

Record Tx := {
  tx_datetime : string;
  tx_direction : Direction;
  tx_amount0 : Z;
  tx_amount1 : Z;
  tx_tick : Z
}.

Record Wallet := {
  buy_count : Z;
  sell_count : Z;
  buy_volume_token0 : Z;
  sell_volume_token0 : Z;
  buy_volume_token1 : Z;
  sell_volume_token1 : Z;
  net_token0 : Z;
  net_token1 : Z;
  first_seen : option string;
  last_seen : option string;
  txs : list Tx
}.

Definition new_wallet : Wallet :=
  {| buy_count := 0; sell_count := 0;
     buy_volume_token0 := 0; sell_volume_token0 := 0;
     buy_volume_token1 := 0; sell_volume_token1 := 0;
     net_token0 := 0; net_token1 := 0;
     first_seen := None; last_seen := None; txs := [] |}.

(** The body of the loop of [analyze_wallet_activity], applied to the
    record [w = wallets[wallet]]. *)
Definition record_swap (swap : Swap) (w : Wallet) : Wallet :=
  let amt0 := amount0 swap in
  let amt1 := amount1 swap in
  let buy := bool_decide (amt0 < 0) in
  {| buy_count := if buy then buy_count w + 1 else buy_count w;
     sell_count := if buy then sell_count w else sell_count w + 1;
     buy_volume_token0 :=
       if buy then buy_volume_token0 w + Z.abs amt0 else buy_volume_token0 w;
     sell_volume_token0 :=
       if buy then sell_volume_token0 w else sell_volume_token0 w + Z.abs amt0;
     buy_volume_token1 :=
       if buy then buy_volume_token1 w + Z.abs amt1 else buy_volume_token1 w;
     sell_volume_token1 :=
       if buy then sell_volume_token1 w else sell_volume_token1 w + Z.abs amt1;
     net_token0 := net_token0 w + - amt0;
     net_token1 := net_token1 w + - amt1;
     first_seen := match first_seen w with
                   | None => Some (datetime swap)
                   | Some d => Some d
                   end;
     last_seen := Some (datetime swap);
     txs := txs w ++ [ {| tx_datetime := datetime swap;
                          tx_direction := direction swap;
                          tx_amount0 := amt0;
                          tx_amount1 := amt1;
                          tx_tick := tick swap |} ] |}.

Definition wallet_step (wallets : list (string * Wallet)) (swap : Swap)
    : list (string * Wallet) :=
  touch (recipient swap) (record_swap swap) new_wallet wallets.

Definition analyze_wallet_activity (swaps : list Swap) : list (string * Wallet) :=
  fold_left wallet_step swaps [].

(** *** identify_whales *)

Inductive Behavior := ACCUMULATING | DISTRIBUTING | NEUTRAL.

Record Whale := {
  address : string;
  total_volume : Z;
  whale_net_token0 : Z;
  whale_net_token1 : Z;
  whale_buy_count : Z;
  whale_sell_count : Z;
  behavior : Behavior;
  whale_first_seen : option string;
  whale_last_seen : option string
}.

Definition volume_entry (kv : string * Wallet) : string * Z * Wallet :=
  (kv.1, buy_volume_token0 kv.2 + sell_volume_token0 kv.2, kv.2).

(** [volumes.sort(key=lambda x: x[1], reverse=True)]: the stable sort by
    decreasing volume; entries of equal volume keep their order. *)
Fixpoint insert_by_volume (x : string * Z * Wallet)
    (l : list (string * Z * Wallet)) : list (string * Z * Wallet) :=
  match l with
  | [] => [x]
  | y :: l' =>
      if decide (y.1.2 <= x.1.2) then x :: y :: l'
      else y :: insert_by_volume x l'
  end.

Definition sort_by_volume (l : list (string * Z * Wallet))
    : list (string * Z * Wallet) :=
  foldr insert_by_volume [] l.

Definition whale_count (n : nat) (threshold_pct : Q) : Z :=
  Z.max 1 (Py.int_of_float (inject_Z (Z.of_nat n) * threshold_pct / 100)%Q).

Definition make_whale (e : string * Z * Wallet) : Whale :=
  let data := e.2 in
  let net_position := net_token0 data in
  {| address := e.1.1;
     total_volume := e.1.2;
     whale_net_token0 := net_position;
     whale_net_token1 := net_token1 data;
     whale_buy_count := buy_count data;
     whale_sell_count := sell_count data;
     behavior := if decide (net_position > 0) then ACCUMULATING
                 else if decide (net_position < 0) then DISTRIBUTING
                 else NEUTRAL;
     whale_first_seen := first_seen data;
     whale_last_seen := last_seen data |}.

Definition identify_whales (wallet_activity : list (string * Wallet))
    (threshold_pct : Q) : list Whale :=
  match wallet_activity with
  | [] => []
  | _ =>
      let volumes := sort_by_volume (volume_entry <$> wallet_activity) in
      make_whale <$> Py.slice_to volumes (whale_count (length volumes) threshold_pct)
  end.

(** *** compute_order_flow_metrics *)

Record HourFlow := { buy : Z; sell : Z }.

Record FlowAcc := {
  acc_buy_volume : Z;
  acc_sell_volume : Z;
  acc_buy_count : Z;
  acc_sell_count : Z;
  hourly_flow : list (string * HourFlow)
}.

Definition hour_of (swap : Swap) : string := substring 0 13 (datetime swap).

Definition flow_step (a : FlowAcc) (swap : Swap) : FlowAcc :=
  let amt0 := amount0 swap in
  let hour := hour_of swap in
  if decide (amt0 < 0) then
    {| acc_buy_volume := acc_buy_volume a + Z.abs amt0;
       acc_sell_volume := acc_sell_volume a;
       acc_buy_count := acc_buy_count a + 1;
       acc_sell_count := acc_sell_count a;
       hourly_flow :=
         touch hour (fun h => {| buy := buy h + Z.abs amt0; sell := sell h |})
               {| buy := 0; sell := 0 |} (hourly_flow a) |}
  else
    {| acc_buy_volume := acc_buy_volume a;
       acc_sell_volume := acc_sell_volume a + Z.abs amt0;
       acc_buy_count := acc_buy_count a;
       acc_sell_count := acc_sell_count a + 1;
       hourly_flow :=
         touch hour (fun h => {| buy := buy h; sell := sell h + Z.abs amt0 |})
               {| buy := 0; sell := 0 |} (hourly_flow a) |}.

Definition flow_totals (swaps : list Swap) : FlowAcc :=
  fold_left flow_step swaps
    {| acc_buy_volume := 0; acc_sell_volume := 0;
       acc_buy_count := 0; acc_sell_count := 0; hourly_flow := [] |}.

(** [sorted] on strings: increasing code-point order. *)
Fixpoint insert_string (x : string) (l : list string) : list string :=
  match l with
  | [] => [x]
  | y :: l' => if String.leb x y then x :: y :: l' else y :: insert_string x l'
  end.

Definition sorted (l : list string) : list string := foldr insert_string [] l.

Definition recent_hours (sorted_hours : list string) : list string :=
  let n := Z.of_nat (length sorted_hours) in
  if decide (n >= 6) then Py.slice_from sorted_hours (-6)
  else Py.slice_from sorted_hours (- n / 2).

Definition older_hours (sorted_hours : list string) : list string :=
  let n := Z.of_nat (length sorted_hours) in
  if decide (n >= 6) then Py.slice_to sorted_hours (-6)
  else Py.slice_to sorted_hours (n / 2).

(** [sum(hourly_flow[h]['buy'] - hourly_flow[h]['sell'] for h in hours)]. *)
Definition net_of (flow : list (string * HourFlow)) (hours : list string) : Z :=
  Py.sum ((fun h => let f := default {| buy := 0; sell := 0 |} (get h flow) in
                    buy f - sell f) <$> hours).

(** The quotient computed from the two windows. *)
Definition trend_of (flow : list (string * HourFlow))
    (recent older : list string) : Q :=
  let recent_net := net_of flow recent in
  let older_net := net_of flow older in
  if decide (older_net ≠ 0) then
    (inject_Z (recent_net - older_net) / inject_Z (Z.abs older_net))%Q
  else if decide (recent_net > 0) then 1%Q
  else if decide (recent_net < 0) then (-1)%Q
  else 0%Q.

Definition trend_change_of (flow : list (string * HourFlow)) : Q :=
  let sorted_hours := sorted (keys flow) in
  if decide (Z.of_nat (length sorted_hours) >= 2) then
    trend_of flow (recent_hours sorted_hours) (older_hours sorted_hours)
  else 0%Q.

(** The numeric entries of the returned dictionary.  The three quotients
    are the values the function computes before [round(_, 3)]. *)
Record Metrics := {
  total_buy_volume : Z;
  total_sell_volume : Z;
  net_flow : Z;
  m_buy_count : Z;
  m_sell_count : Z;
  buy_sell_ratio : Q;
  order_flow_imbalance : Q;
  trend_change : Q
}.

Definition compute_order_flow_metrics (swaps : list Swap) : option Metrics :=
  match swaps with
  | [] => None
  | _ =>
      let a := flow_totals swaps in
      let b := acc_buy_volume a in
      let s := acc_sell_volume a in
      let total_volume := b + s in
      Some {| total_buy_volume := b;
              total_sell_volume := s;
              net_flow := b - s;
              m_buy_count := acc_buy_count a;
              m_sell_count := acc_sell_count a;
              buy_sell_ratio :=
                if decide (s > 0) then (inject_Z b / inject_Z s)%Q
                else if decide (b > 0) then 999%Q else 1%Q;
              order_flow_imbalance :=
                if decide (total_volume > 0)
                then (inject_Z (b - s) / inject_Z total_volume)%Q
                else 0%Q;
              trend_change := trend_change_of (hourly_flow a) |}
  end.

(** *** detect_accumulation_distribution *)

Inductive Pattern :=
  ACCUMULATION | DISTRIBUTION | RETAIL_BUYING | RETAIL_SELLING | MIXED.

Record Window := { buys : list Z; sells : list Z }.

Record WindowPattern := {
  window : string;
  buy_volume : Z;
  sell_volume : Z;
  wp_buy_count : Z;
  wp_sell_count : Z;
  pattern : Pattern
}.

(** The [if/elif] chain; [x * 1.5] is the exact product. *)
Definition classify (buy_vol sell_vol buy_count sell_count : Z) : Pattern :=
  if Py.gt (inject_Z buy_vol) (inject_Z sell_vol * 1.5)
     && bool_decide (buy_count > sell_count) then ACCUMULATION
  else if Py.gt (inject_Z sell_vol) (inject_Z buy_vol * 1.5)
     && bool_decide (sell_count > buy_count) then DISTRIBUTION
  else if decide (buy_count > sell_count * 2) then RETAIL_BUYING
  else if decide (sell_count > buy_count * 2) then RETAIL_SELLING
  else MIXED.

Definition analyze_window (kv : string * Window) : WindowPattern :=
  let data := kv.2 in
  let buy_vol := Py.sum (buys data) in
  let sell_vol := Py.sum (sells data) in
  let buy_count := Z.of_nat (length (buys data)) in
  let sell_count := Z.of_nat (length (sells data)) in
  {| window := kv.1;
     buy_volume := buy_vol;
     sell_volume := sell_vol;
     wp_buy_count := buy_count;
     wp_sell_count := sell_count;
     pattern := classify buy_vol sell_vol buy_count sell_count |}.

Section Windows.

(** [dt.strftime('%Y-%m-%d') + f"_{dt.hour // window_hours}"] for the
    [datetime] string of a swap. *)
Variable window_key : Z -> string -> string.

Definition window_step (window_hours : Z) (windows : list (string * Window))
    (swap : Swap) : list (string * Window) :=
  let amt0 := amount0 swap in
  let k := window_key window_hours (datetime swap) in
  if decide (amt0 < 0) then
    touch k (fun w => {| buys := buys w ++ [Z.abs amt0]; sells := sells w |})
          {| buys := []; sells := [] |} windows
  else
    touch k (fun w => {| buys := buys w; sells := sells w ++ [Z.abs amt0] |})
          {| buys := []; sells := [] |} windows.

(** [sorted(windows.items())]: the keys are distinct, so the items are
    ordered by key. *)
Definition sorted_items (windows : list (string * Window))
    : list (string * Window) :=
  omap (fun k => pair k <$> get k windows) (sorted (keys windows)).

(** The ['windows'] entry of the result; [None] is the empty dictionary
    returned for no swaps. *)
Definition detect_accumulation_distribution (swaps : list Swap)
    (window_hours : Z) : option (list WindowPattern) :=
  match swaps with
  | [] => None
  | _ =>
      let windows := fold_left (window_step window_hours) swaps [] in
      Some (analyze_window <$> sorted_items windows)
  end.

End Windows.

End OrderFlow.


(** ** state_normalizer.py *)

Module StateNormalizer.

Local Open Scope Q_scope.

(** The five attributes [save] writes and [load] restores.  The arrays are
    lists of the array's length. *)
Record Normalizer := {
  state_dim : Z;
  clip_range : Q;
  mean : list Q;
  var : list Q;
  count : Z
}.

(** [__init__]: [np.zeros(state_dim)], [np.ones(state_dim)], count 0. *)
Definition init (state_dim : Z) (clip_range : Q) : Normalizer :=
  {| state_dim := state_dim;
     clip_range := clip_range;
     mean := replicate (Z.to_nat state_dim) 0;
     var := replicate (Z.to_nat state_dim) 1;
     count := 0 |}.

(** [np.clip(x, lo, hi)], which is [minimum(maximum(x, lo), hi)]. *)
Definition np_clip (x lo hi : Q) : Q := Qmin (Qmax x lo) hi.

(** The table of [normalize_by_range]. *)
Definition ranges : list (Q * Q) :=
  [ (0.0001, 1000); (1e3, 1e12); (0, 1e20); (0, 1e20); (0, 1e9); (0, 1e7);
    (0, 1); (-1, 1); (-900000, 900000); (-900000, 900000); (-900000, 900000);
    (0, 0.5); (0, 1); (0, 2); (-1, 1); (0, 10); (0, 100); (-1, 1); (-1, 1);
    (-900000, 900000); (-900000, 900000); (0, 1e12); (0, 1e9); (0, 1e9);
    (0, 1e9); (-1, 1); (0, 1e6); (0, 1);
    (0, 1e9); (0, 1e9); (0, 1e9); (0, 1e6); (-1e6, 1e6); (-5, 5); (0, 1) ].

(** The value assigned to [normalized[i]] before it is clipped. *)
Definition scale (low high x : Q) : Q :=
  if Py.gt high low then 2 * (x - low) / (high - low) - 1 else 0.

(** One turn of the loop over [enumerate(ranges)].  Once [i] is past the end
    of [state] the loop stops; every later index is past the end too, so the
    turn leaves [normalized] as it is. *)
Definition range_step (clip : Q) (state : list Q) (normalized : list Q)
    (entry : nat * (Q * Q)) : list Q :=
  let '(i, (low, high)) := entry in
  match state !! i with
  | None => normalized
  | Some x => <[i := np_clip (scale low high x) (- clip) clip]> normalized
  end.

Definition enumerate {A} (l : list A) : list (nat * A) := imap pair l.

Definition normalize_with (table : list (Q * Q)) (clip : Q) (state : list Q)
    : list Q :=
  fold_left (range_step clip state) (enumerate table)
            (replicate (length state) 0).

Definition normalize_by_range (nz : Normalizer) (state : list Q) : list Q :=
  normalize_with ranges (clip_range nz) state.

(** [update]: the arrays are combined element by element. *)
Definition update (nz : Normalizer) (state : list Q) : Normalizer :=
  let count' := (count nz + 1)%Z in
  let delta := zip_with Qminus state (mean nz) in
  let mean' := zip_with (fun m d => m + d / inject_Z count') (mean nz) delta in
  let delta2 := zip_with Qminus state mean' in
  {| state_dim := state_dim nz;
     clip_range := clip_range nz;
     mean := mean';
     var := zip_with Qplus (var nz) (zip_with Qmult delta delta2);
     count := count' |}.

Definition updates (nz : Normalizer) (states : list (list Q)) : Normalizer :=
  fold_left update states nz.

Section Running.

(** [np.sqrt] on one component. *)
Variable np_sqrt : Q -> Q.

(** The radicand of [std]: [var / (count - 1) + 1e-8]. *)
Definition radicand (nz : Normalizer) : list Q :=
  (fun v => v / inject_Z (count nz - 1) + 1e-8) <$> var nz.

Definition normalize_running (nz : Normalizer) (state : list Q) : list Q :=
  if decide (count nz < 2)%Z then state
  else
    let std := np_sqrt <$> radicand nz in
    let normalized := zip_with Qdiv (zip_with Qminus state (mean nz)) std in
    (fun x => np_clip x (- clip_range nz) (clip_range nz)) <$> normalized.

End Running.

(** The document [json.dump] writes and [json.load] returns: a dictionary
    whose entries are numbers or arrays of numbers. *)
Inductive Number :=
| JInt (n : Z)
| JFloat (x : Q).

Inductive Json :=
| JNumber (n : Number)
| JList (l : list Number).

Definition as_int (j : Json) : option Z :=
  match j with JNumber (JInt n) => Some n | _ => None end.

Definition float_of (n : Number) : Q :=
  match n with JInt n => inject_Z n | JFloat x => x end.

Definition as_float (j : Json) : option Q :=
  match j with JNumber n => Some (float_of n) | _ => None end.

(** [np.array(data[k])]. *)
Definition as_array (j : Json) : option (list Q) :=
  match j with JList l => Some (float_of <$> l) | _ => None end.

Fixpoint item (k : string) (d : list (string * Json)) : option Json :=
  match d with
  | [] => None
  | (k', v) :: d' => if decide (k' = k) then Some v else item k d'
  end.

Definition to_json (nz : Normalizer) : list (string * Json) :=
  [ ("state_dim"%string, JNumber (JInt (state_dim nz)));
    ("clip_range"%string, JNumber (JFloat (clip_range nz)));
    ("mean"%string, JList (JFloat <$> mean nz));
    ("var"%string, JList (JFloat <$> var nz));
    ("count"%string, JNumber (JInt (count nz))) ].

(** [save]: the file at [path] now holds the dictionary. *)
Definition save (nz : Normalizer) (path : string)
    (fs : gmap string (list (string * Json))) : gmap string (list (string * Json)) :=
  <[path := to_json nz]> fs.

(** [load] into the object [nz]: [None] when the file or an entry is missing
    (the call raises); otherwise the five attributes are overwritten. *)
Definition load (nz : Normalizer) (path : string)
    (fs : gmap string (list (string * Json))) : option Normalizer :=
  data ← fs !! path;
  sd ← item "state_dim" data ≫= as_int;
  cr ← item "clip_range" data ≫= as_float;
  m ← item "mean" data ≫= as_array;
  v ← item "var" data ≫= as_array;
  c ← item "count" data ≫= as_int;
  Some {| state_dim := sd; clip_range := cr; mean := m; var := v; count := c |}.

End StateNormalizer.


(** * Concrete inputs and derived notions used by the statements *)

Module CollectorSamples.

Import SwapCollector.

(** A rendering of timestamps, standing for
    [datetime.utcfromtimestamp(ts).isoformat()] in the concrete runs. *)
Definition iso_clock (ts : Z) : string := "2023-11-14T22:14:10".

Definition log50 : Log :=
  {| blockNumber := 50; transactionHash := "0xaa"; logIndex := 0; log_data := "" |}.

Definition args_buy : SwapArgs :=
  {| arg_sender := "0xrouter"; arg_recipient := "0xalice";
     arg_amount0 := -100; arg_amount1 := 7;
     arg_sqrtPriceX96 := 1; arg_liquidity := 1; arg_tick := 0 |}.

(** A node at head 100 whose query for blocks 66 to 90 raises; the only log
    it serves is at block 50. *)
Definition flaky_node : Web3 :=
  {| block_number := 100%N;
     get_logs := fun _ a b =>
       if decide (a = 41) then Some [log50]
       else if decide (a = 66) then None
       else Some [];
     process_log := fun _ => Some args_buy;
     get_block := fun b => Some (1700000000 + b) |}.

Definition synced_at_40 : Store :=
  {| last_block_file := Some {[ "pool-a"%string := 40 ]}; daily_files := ∅ |}.

Definition never_synced : Store :=
  {| last_block_file := None; daily_files := ∅ |}.

(** A node serving one log whose decoded [amount0] is zero. *)
Definition args_zero : SwapArgs :=
  {| arg_sender := "0xrouter"; arg_recipient := "0xbob";
     arg_amount0 := 0; arg_amount1 := -5;
     arg_sqrtPriceX96 := 1; arg_liquidity := 1; arg_tick := 0 |}.

Definition zero_node : Web3 :=
  {| block_number := 100%N;
     get_logs := fun _ a b => if decide (a = 41) then Some [log50] else Some [];
     process_log := fun _ => Some args_zero;
     get_block := fun b => Some (1700000000 + b) |}.

(** The sub-ranges of a scan, as [(batch_start, batch_end)]. *)
Definition batches (from_block to_block : Z) : list (Z * Z) :=
  (fun b => (b, Z.min (b + BATCH_SIZE - 1) to_block))
    <$> Py.range from_block (to_block + 1) BATCH_SIZE.

(** What a sub-range contributes: its logs, or nothing when the query
    raised. *)
Definition batch_logs (w3 : Web3) (pool_address : string) (b : Z * Z) : list Log :=
  default [] (get_logs w3 pool_address b.1 b.2).

End CollectorSamples.


Module OrderFlowSamples.

Import SwapCollector OrderFlow.

(** A stored swap of [who] at [dt] with the given amounts. *)
Definition swap_at (dt who : string) (a0 a1 : Z) : Swap :=
  {| block := 1; tx_hash := "0x01"; log_index := 0; timestamp := 0;
     datetime := dt; sender := "0xrouter"; recipient := who;
     amount0 := a0; amount1 := a1;
     sqrt_price_x96 := 1; liquidity := 1; tick := 0;
     direction := direction_of a0 |}.

(** Eight hours, one buy of 10 in each. *)
Definition eight_hours : list Swap :=
  [ swap_at "2024-01-01T00:10:00" "0xalice" (-10) 1;
    swap_at "2024-01-01T01:10:00" "0xalice" (-10) 1;
    swap_at "2024-01-01T02:10:00" "0xalice" (-10) 1;
    swap_at "2024-01-01T03:10:00" "0xalice" (-10) 1;
    swap_at "2024-01-01T04:10:00" "0xalice" (-10) 1;
    swap_at "2024-01-01T05:10:00" "0xalice" (-10) 1;
    swap_at "2024-01-01T06:10:00" "0xalice" (-10) 1;
    swap_at "2024-01-01T07:10:00" "0xalice" (-10) 1 ].

(** Three hours: a buy of 10, a buy of 30, a sell of 5. *)
Definition three_hours : list Swap :=
  [ swap_at "2024-01-01T01:10:00" "0xalice" (-10) 1;
    swap_at "2024-01-01T02:10:00" "0xalice" (-30) 3;
    swap_at "2024-01-01T03:10:00" "0xbob" 5 (-1) ].


Definition two_buys : list Swap :=
  [ swap_at "2024-01-01T01:10:00" "0xalice" (-10) 1;
    swap_at "2024-01-01T02:10:00" "0xalice" (-30) 3 ].


(** The sign of the recent net flow, as the function returns it when the
    older net flow is zero. *)
Definition sign (z : Z) : Q := inject_Z (Z.sgn z).

(** The size of the recent window: 6 from six buckets on, the larger half
    below. *)
Definition recent_size (n : nat) : nat :=
  if decide (6 ≤ n)%nat then 6%nat else Z.to_nat ((Z.of_nat n + 1) / 2).


(** The sum of [f] over a list of swaps. *)
Definition total (f : Swap -> Z) (swaps : list Swap) : Z :=
  foldr (fun s t => f s + t) 0 swaps.

(** The order of the hour keys. *)
Definition hour_le (a b : string) : Prop := String.leb a b = true.

(** What a swap adds to the net flow (buy minus sell) of the hours [hs]:
    the token0 it takes out of the pool. *)
Definition of_hours (hs : list string) (s : Swap) : Z :=
  if decide (hour_of s ∈ hs) then - amount0 s else 0.

(** The net flow of one hourly bucket. *)
Definition bucket_net (flow : list (string * HourFlow)) (h : string) : Z :=
  let f := default {| buy := 0; sell := 0 |} (get h flow) in buy f - sell f.




(** What one swap does to the bucket it falls in. *)
Definition window_record (swap : Swap) (w : Window) : Window :=
  if decide (amount0 swap < 0)
  then {| buys := buys w ++ [Z.abs (amount0 swap)]; sells := sells w |}
  else {| buys := buys w; sells := sells w ++ [Z.abs (amount0 swap)] |}.


(** Buckets of a whole day, keyed by the date. *)
Definition day_key (window_hours : Z) (dt : string) : string := substring 0 10 dt.

End OrderFlowSamples.

(** The trend windows as the specification words them: the most recent 6
    hourly buckets, or the most recent half of the buckets when fewer than
    12 exist; the older window is everything before. *)
Module Claimed.

Import OrderFlow.

Definition recent_size (n : nat) : nat :=
  if decide (n < 12)%nat then (n / 2)%nat else 6%nat.

Definition recent_hours (sorted_hours : list string) : list string :=
  drop (length sorted_hours - recent_size (length sorted_hours)) sorted_hours.

Definition older_hours (sorted_hours : list string) : list string :=
  take (length sorted_hours - recent_size (length sorted_hours)) sorted_hours.

Definition trend_change_of (flow : list (string * HourFlow)) : Q :=
  let sorted_hours := sorted (keys flow) in
  if decide (Z.of_nat (length sorted_hours) >= 2) then
    trend_of flow (recent_hours sorted_hours) (older_hours sorted_hours)
  else 0%Q.

End Claimed.


Module NormalizerSamples.

Import StateNormalizer.

Local Open Scope Q_scope.

(** A one-slot normalizer and two observations, 1 and 3. *)
Definition fresh : Normalizer := init 1 10.

Definition two_states : list (list Q) := [[1]; [3]].

(** A normalizer with two slots after some updates, as it would be saved. *)
Definition trained : Normalizer :=
  {| state_dim := 2; clip_range := 10;
     mean := [2; 1 # 2]; var := [3; 5 # 4]; count := 2 |}.


(** The sum, the arithmetic mean and the sum of squared deviations of the
    observations of one slot. *)
Definition qsum (xs : list Q) : Q := foldr Qplus 0 xs.

Definition arithmetic_mean (xs : list Q) : Q :=
  qsum xs / inject_Z (Z.of_nat (length xs)).

Definition squared_deviations (xs : list Q) (m : Q) : Q :=
  qsum ((fun x => (x - m) * (x - m)) <$> xs).

Definition squares (xs : list Q) : Q := qsum ((fun x => x * x) <$> xs).

(** [update] seen from one slot: the count and the slot's mean and var. *)
Definition slot_step (cmv : Z * Q * Q) (x : Q) : Z * Q * Q :=
  let '(c, m, v) := cmv in
  let c' := (c + 1)%Z in
  let m' := m + (x - m) / inject_Z c' in
  (c', m', v + (x - m) * (x - m')).

(** The observations of slot [i]. *)
Definition column (i : nat) (states : list (list Q)) : list Q :=
  (fun s => default 0 (s !! i)) <$> states.

End NormalizerSamples.


(** * The remaining functions of the three modules *)

(** ** collectors/swap-collector.py: configuration and [collect_all] *)

Module SwapCollectorAll.

Import SwapCollector.

(** An entry of [config['pools']]: a key that is absent is [None]. *)
Record PoolConfig := {
  address : option string;
  enabled : option bool
}.

(** [{k: v for k, v in pools.items() if v.get('enabled', False)}]. *)
Definition get_enabled_pools (pools : list (string * PoolConfig))
    : list (string * PoolConfig) :=
  List.filter (fun kv => default false (enabled kv.2)) pools.

Section CollectAll.

Variable utc_isoformat : Z -> string.

(** [collect_pool(name, config, lookback_blocks)] as [collect_all] calls
    it: reading [pool_config['address']] or the head of the node may raise
    ([None]), before anything is written. *)
Definition collect_pool_config (node : option Web3) (st : Store) (name : string)
    (pool_config : PoolConfig) (lookback_blocks : Z) (date_str : string)
    : option (nat * Store) :=
  pool_address ← address pool_config;
  w3 ← node;
  Some (collect_pool utc_isoformat w3 st name pool_address lookback_blocks date_str).

(** One turn of the loop of [collect_all]: a pool that raises is reported
    and skipped. *)
Definition collect_all_step (node : string -> option Web3) (clock : string -> string)
    (lookback_blocks : Z) (acc : nat * Store) (kv : string * PoolConfig)
    : nat * Store :=
  match collect_pool_config (node kv.1) acc.2 kv.1 kv.2 lookback_blocks (clock kv.1) with
  | Some (count, st') => ((acc.1 + count)%nat, st')
  | None => acc
  end.

(** [collect_all]: [node name] is the node as it answers while pool [name]
    is collected, [clock name] the day read at that moment. *)
Definition collect_all (node : string -> option Web3) (clock : string -> string)
    (pools : list (string * PoolConfig)) (st : Store) (lookback_blocks : Z)
    : nat * Store :=
  fold_left (collect_all_step node clock lookback_blocks)
            (get_enabled_pools pools) (0%nat, st).

End CollectAll.

(** A configuration with one enabled pool and one pool without the
    [enabled] key. *)
Definition two_pools : list (string * PoolConfig) :=
  [ ("pool-a"%string, {| address := Some "0xpool"%string; enabled := Some true |});
    ("pool-b"%string, {| address := Some "0xother"%string; enabled := None |}) ].

End SwapCollectorAll.

(** Notions used to state properties of the analyzer. *)
Module OrderFlowNotions.

Import SwapCollector OrderFlow.

(** The sum of a field over the entries of a dictionary. *)
Definition sum_values {V} (f : V -> Z) (d : list (string * V)) : Z :=
  foldr (fun kv t => f kv.2 + t) 0 d.

(** The swaps received by wallet [k], in the order of the stream. *)
Definition swaps_of (k : string) (swaps : list Swap) : list Swap :=
  filter (fun s => recipient s = k) swaps.

(** A wallet record built from a list of swaps alone. *)
Definition record_all (swaps : list Swap) : Wallet :=
  fold_left (fun w s => record_swap s w) swaps new_wallet.

(** The sum of [|amount0|] over a stream. *)
Definition gross_volume (swaps : list Swap) : Z :=
  foldr (fun s t => Z.abs (amount0 s) + t) 0 swaps.

(** The token0 the swaps took out of the pool minus what they put in. *)
Definition net_bought (swaps : list Swap) : Z :=
  foldr (fun s t => - amount0 s + t) 0 swaps.

(** What one swap adds to the buy and sell volumes and counts. *)
Definition bought (s : Swap) : Z := if decide (amount0 s < 0) then Z.abs (amount0 s) else 0.
Definition sold (s : Swap) : Z := if decide (amount0 s < 0) then 0 else Z.abs (amount0 s).
Definition is_buy (s : Swap) : Z := if decide (amount0 s < 0) then 1 else 0.
Definition is_sell (s : Swap) : Z := if decide (amount0 s < 0) then 0 else 1.


(** The sum of a field over a list of records. *)
Definition sum_over {A} (f : A -> Z) (l : list A) : Z :=
  foldr (fun a t => f a + t) 0 l.

(** The swaps that fall in the bucket [k]. *)
Definition swaps_in (window_key : Z -> string -> string) (window_hours : Z)
    (k : string) (swaps : list Swap) : list Swap :=
  filter (fun s => window_key window_hours (datetime s) = k) swaps.

(** A bucket built from a list of swaps alone. *)
Definition window_all (swaps : list Swap) : Window :=
  fold_left (fun w s => OrderFlowSamples.window_record s w) swaps
            {| buys := []; sells := [] |}.

End OrderFlowNotions.

(** ** analysis/order_flow.py: loading, summary and report *)

Module OrderFlowReport.

Import SwapCollector OrderFlow.

(** [sorted(d.items())] for a dictionary with string keys. *)
Definition items_by_key {V} (d : list (string * V)) : list (string * V) :=
  omap (fun k => pair k <$> get k d) (sorted (keys d)).



Section Loading.

(** [datetime.fromisoformat(dt) > cutoff]; [None] when the string does not
    parse (the call raises). *)
Variable newer_than_cutoff : string -> option bool.



End Loading.

#[global] Instance Pattern_eq_dec : EqDecision Pattern.
Proof. solve_decision. Defined.

(** [pattern_counts[p] += 1] on a [defaultdict(int)]. *)
Fixpoint bump (p : Pattern) (counts : list (Pattern * nat)) : list (Pattern * nat) :=
  match counts with
  | [] => [(p, 1%nat)]
  | (q, n) :: counts' =>
      if decide (q = p) then (q, S n) :: counts'
      else (q, n) :: bump p counts'
  end.

Definition pattern_counts (patterns : list WindowPattern) : list (Pattern * nat) :=
  fold_left (fun counts w => bump (pattern w) counts) patterns [].

(** [max(items, key=lambda x: x[1])]: the first item of greatest count. *)
Fixpoint max_by_count (best : Pattern * nat) (items : list (Pattern * nat))
    : Pattern * nat :=
  match items with
  | [] => best
  | x :: items' => max_by_count (if decide (best.2 < x.2)%nat then x else best) items'
  end.

(** ['UNKNOWN'] is [None]. *)
Definition dominant_of (counts : list (Pattern * nat)) : option Pattern :=
  match counts with
  | [] => None
  | x :: items => Some (max_by_count x items).1
  end.

(** [pattern_summary.get(p, 0)]. *)
Definition count_for (p : Pattern) (counts : list (Pattern * nat)) : nat :=
  default 0%nat (snd <$> List.find (fun x => bool_decide (x.1 = p)) counts).

Record Patterns := {
  windows : list WindowPattern;
  pattern_summary : list (Pattern * nat);
  dominant_pattern : option Pattern
}.

Inductive MarketDirection := BULLISH | BEARISH | NEUTRAL_MARKET.

Inductive TrendSignal := ACCELERATING | DECELERATING | STABLE.

Inductive Confidence := HIGH | MEDIUM | LOW.

(** The two labels of the metrics dictionary, computed from the quotients
    before they are rounded. *)
Definition market_direction (m : Metrics) : MarketDirection :=
  if Py.gt (order_flow_imbalance m) 0.1 then BULLISH
  else if Py.gt (-0.1) (order_flow_imbalance m) then BEARISH
  else NEUTRAL_MARKET.

Definition trend_signal (m : Metrics) : TrendSignal :=
  if Py.gt (trend_change m) 0.2 then ACCELERATING
  else if Py.gt (-0.2) (trend_change m) then DECELERATING
  else STABLE.

(** [round(x, 3)]: the nearest multiple of 1/1000, ties to the even one. *)
Definition round3 (x : Q) : Q :=
  let y := (x * 1000)%Q in
  let f := Qfloor y in
  let r := (y - inject_Z f)%Q in
  let n := if Py.gt r 0.5 then f + 1
           else if Py.gt 0.5 r then f
           else if Z.even f then f else f + 1 in
  (inject_Z n / 1000)%Q.

(** The label computed from the rounded ['order_flow_imbalance'] entry. *)
Definition confidence (m : Metrics) : Confidence :=
  let x := Qabs (round3 (order_flow_imbalance m)) in
  if Py.gt x 0.3 then HIGH else if Py.gt x 0.15 then MEDIUM else LOW.

Record Prediction := {
  direction : MarketDirection;
  prediction_confidence : Confidence;
  signal : TrendSignal;
  whale_behavior : option Behavior
}.

Record Report := {
  total_swaps : nat;
  unique_wallets : nat;
  metrics : Metrics;
  whales : list Whale;
  patterns : Patterns;
  prediction : Prediction
}.

Section Report.

Variable window_key : Z -> string -> string.

(** The whole result of [detect_accumulation_distribution]; [None] is the
    empty dictionary returned for no swaps. *)
Definition detect_patterns (swaps : list Swap) (window_hours : Z) : option Patterns :=
  ws ← detect_accumulation_distribution window_key swaps window_hours;
  let counts := pattern_counts ws in
  Some {| windows := ws; pattern_summary := counts;
          dominant_pattern := dominant_of counts |}.

(** [generate_report] on the swaps [load_swaps] returned; [None] is the
    ['error'] report. *)
Definition generate_report (swaps : list Swap) : option Report :=
  match swaps with
  | [] => None
  | _ =>
      let wallet_activity := analyze_wallet_activity swaps in
      let whales := identify_whales wallet_activity 10 in
      m ← compute_order_flow_metrics swaps;
      p ← detect_patterns swaps 24;
      Some {| total_swaps := length swaps;
              unique_wallets := length wallet_activity;
              metrics := m;
              whales := Py.slice_to whales 5;
              patterns := p;
              prediction :=
                {| direction := market_direction m;
                   prediction_confidence := confidence m;
                   signal := trend_signal m;
                   whale_behavior := behavior <$> head whales |} |}
  end.

End Report.



End OrderFlowReport.


(** * Properties of the collector *)

Module SwapCollectorFacts.

Import SwapCollector CollectorSamples.

Section Facts.

Variable utc_isoformat : Z -> string.

Lemma fetch_batches_from (w3 : Web3) (addr : string) (to_block : Z)
    (starts : list Z) (acc : list Log) :
  fold_left (fetch_batch w3 addr to_block) starts acc =
  acc ++ concat ((fun b => batch_logs w3 addr (b, Z.min (b + BATCH_SIZE - 1) to_block))
                   <$> starts).
Proof.
  revert acc. induction starts as [|b starts IH]; intros acc; simpl.
  - by rewrite app_nil_r.
  - rewrite IH. unfold fetch_batch, batch_logs at 2. simpl.
    destruct (get_logs w3 addr b _); simpl; by rewrite <- ?app_assoc.
Qed.

Lemma fetch_logs_batches (w3 : Web3) (addr : string) (from_block to_block : Z) :
  fetch_logs w3 addr from_block to_block =
  concat (batch_logs w3 addr <$> batches from_block to_block).
Proof.
  unfold fetch_logs, batches. rewrite fetch_batches_from. simpl.
  by rewrite <- list_fmap_compose.
Qed.

Lemma get_last_block_save (st : Store) (name : string) (blk : Z) :
  get_last_block (save_last_block st name blk) name = blk.
Proof. unfold get_last_block, save_last_block. simpl. by rewrite lookup_insert_eq. Qed.

Lemma get_last_block_save_ne (st : Store) (name other : string) (blk : Z) :
  other ≠ name →
  get_last_block (save_last_block st other blk) name = get_last_block st name.
Proof.
  intros Hne. unfold get_last_block, save_last_block. simpl.
  rewrite lookup_insert_ne by done. destruct (last_block_file st); [done|].
  by rewrite lookup_empty.
Qed.

(** The store a completed scan leaves, and the count it returns. *)
Lemma collect_pool_scans (w3 : Web3) (st : Store) (name addr : string)
    (lookback : Z) (date : string) :
  let head := Z.of_N (block_number w3) in
  let from_block := start_block st name head lookback in
  from_block < head →
  ∃ st1, (∀ n, get_last_block st1 n = get_last_block st n) ∧
    collect_pool utc_isoformat w3 st name addr lookback date =
      (length (get_swaps utc_isoformat w3 addr from_block head),
       save_last_block st1 name head).
Proof.
  intros head from_block Hlt. unfold collect_pool. fold head. fold from_block.
  destruct (decide (from_block >= head)) as [Hge|_]; [lia|].
  destruct (get_swaps utc_isoformat w3 addr from_block head) as [|s swaps] eqn:E.
  - by exists st.
  - eexists. split; [|reflexivity]. done.
Qed.

Lemma collect_pool_idle (w3 : Web3) (st : Store) (name addr : string)
    (lookback : Z) (date : string) :
  start_block st name (Z.of_N (block_number w3)) lookback >= Z.of_N (block_number w3) →
  collect_pool utc_isoformat w3 st name addr lookback date = (0%nat, st).
Proof. intros Hge. unfold collect_pool. by rewrite decide_True. Qed.

(** One call moves the checkpoint of a pool up to the head, or not at all. *)
Lemma collect_pool_checkpoint (w3 : Web3) (st : Store) (target name addr : string)
    (lookback : Z) (date : string) :
  let head := Z.of_N (block_number w3) in
  let st' := (collect_pool utc_isoformat w3 st target addr lookback date).2 in
  get_last_block st' name = get_last_block st name ∨
  (name = target ∧ get_last_block st' name = head ∧ get_last_block st name < head).
Proof.
  intros head st'. subst st'.
  destruct (decide (start_block st target head lookback >= head)) as [Hge|Hlt].
  - left. unfold head in Hge. by rewrite collect_pool_idle.
  - destruct (collect_pool_scans w3 st target addr lookback date) as (st1 & Hst1 & Hrun);
      [fold head; lia|].
    rewrite Hrun. simpl. fold head.
    destruct (decide (name = target)) as [->|Hne].
    + rewrite get_last_block_save.
      unfold start_block in Hlt.
      destruct (decide (get_last_block st target = 0)) as [E|E].
      * destruct (decide (head = 0)) as [E0|E0]; [left; lia|right].
        split; [done|]. split; [done|]. unfold head in *. lia.
      * right. split; [done|]. split; [done|]. lia.
    + left. rewrite get_last_block_save_ne by done. apply Hst1.
Qed.

Lemma run_call_checkpoint (c : Call) (st : Store) (name : string) :
  get_last_block (run_call utc_isoformat st c) name = get_last_block st name ∨
  (call_name c = name ∧
   get_last_block (run_call utc_isoformat st c) name = Z.of_N (block_number (call_w3 c)) ∧
   get_last_block st name < Z.of_N (block_number (call_w3 c))).
Proof.
  unfold run_call.
  destruct (collect_pool_checkpoint (call_w3 c) st (call_name c) name
              (call_address c) (call_lookback c) (call_date c)) as [H|(-> & H1 & H2)];
    [by left | by right].
Qed.

Lemma run_calls_checkpoint_le (cs : list Call) (st : Store) (name : string) :
  get_last_block st name ≤ get_last_block (run_calls utc_isoformat st cs) name.
Proof.
  revert st. induction cs as [|c cs IH]; intros st; simpl; [done|].
  etrans; [|apply IH]. destruct (run_call_checkpoint c st name) as [->|(_ & -> & ?)]; lia.
Qed.

(** C1. Whenever [collect_pool] runs with [from_block < current_block], it
    returns the number of decoded events and leaves the pool's checkpoint at
    [current_block], whatever the sub-range queries did.  A sub-range whose
    query raised contributes no log and is not retried; its end lies at or
    below the new checkpoint; and, for a head other than 0, after any
    further calls every scan of the pool starts beyond that sub-range. *)
Theorem collect_pool_advances_past_failed_batches
    (w3 : Web3) (st : Store) (name addr : string) (lookback : Z) (date : string) :
  let head := Z.of_N (block_number w3) in
  let from_block := start_block st name head lookback in
  from_block < head →
  let decoded :=
    omap (decode_log utc_isoformat w3)
         (concat (batch_logs w3 addr <$> batches from_block head)) in
  ∃ st',
    collect_pool utc_isoformat w3 st name addr lookback date = (length decoded, st') ∧
    get_last_block st' name = head ∧
    (∀ b, b ∈ batches from_block head →
          get_logs w3 addr b.1 b.2 = None →
          batch_logs w3 addr b = [] ∧
          b.2 ≤ get_last_block st' name ∧
          (head ≠ 0 → ∀ (later : list Call) (head' lookback' : Z),
             b.2 < start_block (run_calls utc_isoformat st' later) name head' lookback')).
Proof.
  intros head from_block Hlt decoded.
  destruct (collect_pool_scans w3 st name addr lookback date Hlt) as (st1 & _ & Hrun).
  eexists. split; [|split].
  - rewrite Hrun. unfold get_swaps. by rewrite fetch_logs_batches.
  - apply get_last_block_save.
  - intros [bs be] Hin Hfail.
    assert (Hend : be ≤ head).
    { unfold batches in Hin. apply list_elem_of_fmap in Hin as (s & [= -> ->] & _). lia. }
    split; [unfold batch_logs; by rewrite Hfail|].
    split; [by rewrite get_last_block_save|].
    intros Hne later head' lookback'. change ((bs, be).2) with be. unfold start_block.
    pose proof (run_calls_checkpoint_le later (save_last_block st1 name head) name) as Hle.
    rewrite get_last_block_save in Hle. unfold head in *.
    rewrite decide_False by lia. lia.
Qed.

(** The stored direction is [buy_token0] exactly when [amount0] is not
    positive. *)
Lemma direction_of_buy (a : Z) : direction_of a = buy_token0 ↔ a ≤ 0.
Proof. unfold direction_of. case_decide; split; intros; try done; lia. Qed.

Lemma decode_log_direction (w3 : Web3) (log : Log) (s : Swap) :
  decode_log utc_isoformat w3 log = Some s → direction s = direction_of (amount0 s).
Proof.
  unfold decode_log. intros H.
  destruct (process_log w3 log) as [ev|]; simpl in H; [|done].
  destruct (get_block w3 (blockNumber log)) as [ts|]; simpl in H; [|done].
  by inversion H.
Qed.

(** C2, at a log whose [amount0] is zero: the swap [get_swaps] builds from
    it is labelled [buy_token0], although its [amount0] is not negative;
    the analyzer counts the same swap as a sell. *)
Theorem get_swaps_zero_amount_labelled_buy :
  let swaps := get_swaps utc_isoformat zero_node "0xpool" 41 100 in
  (fun s => (amount0 s, direction s)) <$> swaps = [(0, buy_token0)] ∧
  ¬ (0 < 0) ∧
  (fun w => (OrderFlow.buy_count w, OrderFlow.sell_count w))
    <$> OrderFlow.get "0xbob" (OrderFlow.analyze_wallet_activity swaps) = Some (0, 1) ∧
  (fun m => (OrderFlow.m_buy_count m, OrderFlow.m_sell_count m))
    <$> OrderFlow.compute_order_flow_metrics swaps = Some (0, 1).
Proof. split; [reflexivity|]. split; [lia|]. split; reflexivity. Qed.

(** C8. Over any sequence of completed [collect_pool] calls, with any heads
    and any sub-range failures, the checkpoint of a pool never decreases.
    A call with [from_block >= current_block] returns 0 and writes nothing;
    a call with [from_block < current_block] sets the checkpoint of its pool
    to [current_block], which is strictly greater than the previous
    checkpoint (or, at head 0 on a pool whose checkpoint reads 0, equal to
    it); so every call leaves the checkpoint of a pool where it was or sets
    it to a strictly greater [current_block]. *)
Theorem checkpoint_never_decreases (name : string) :
  (∀ (cs : list Call) (st : Store),
     get_last_block st name ≤ get_last_block (run_calls utc_isoformat st cs) name) ∧
  (∀ (c : Call) (st : Store),
     let head := Z.of_N (block_number (call_w3 c)) in
     let from_block := start_block st (call_name c) head (call_lookback c) in
     let st' := run_call utc_isoformat st c in
     (from_block >= head →
      collect_pool utc_isoformat (call_w3 c) st (call_name c) (call_address c)
                   (call_lookback c) (call_date c) = (0%nat, st)) ∧
     (from_block < head →
      get_last_block st' (call_name c) = head ∧
      (get_last_block st (call_name c) < head ∨
       (head = 0 ∧ get_last_block st (call_name c) = 0))) ∧
     (get_last_block st' name = get_last_block st name ∨
      (call_name c = name ∧
       get_last_block st' name = head ∧
       get_last_block st name < head))).
Proof.
  split; [intros cs st; apply run_calls_checkpoint_le|].
  intros c st head from_block st'.
  split; [apply collect_pool_idle|]. split; [|apply run_call_checkpoint].
  intros Hlt. subst st'. unfold run_call.
  destruct (collect_pool_scans (call_w3 c) st (call_name c) (call_address c)
              (call_lookback c) (call_date c) Hlt) as (st1 & _ & ->).
  simpl. rewrite get_last_block_save. split; [done|].
  subst from_block. unfold start_block in Hlt.
  destruct (decide (get_last_block st (call_name c) = 0)) as [E|E]; [|left; lia].
  unfold head in *. lia.
Qed.

End Facts.

(** The scan of [flaky_node] from checkpoint 40: the query for blocks 66 to
    90 fails, one swap is counted and the checkpoint is 100. *)
Lemma collect_pool_advances_witness :
  start_block synced_at_40 "pool-a" 100 1800 < 100 ∧
  get_logs flaky_node "0xpool" 66 90 = None ∧
  ∃ st', collect_pool iso_clock flaky_node synced_at_40 "pool-a" "0xpool" 1800
                      "2024-01-01" = (1%nat, st') ∧
         get_last_block st' "pool-a" = 100.
Proof.
  assert (H : start_block synced_at_40 "pool-a" (Z.of_N (block_number flaky_node)) 1800
              < Z.of_N (block_number flaky_node)) by (vm_compute; reflexivity).
  split; [exact H|]. split; [reflexivity|].
  destruct (collect_pool_advances_past_failed_batches iso_clock
              flaky_node synced_at_40 "pool-a" "0xpool" 1800 "2024-01-01" H)
    as (st' & Hrun & Hcp & _).
  exists st'. split; [exact Hrun | exact Hcp].
Defined.

End SwapCollectorFacts.


(** * Properties of the order-flow analyzer *)

Module OrderFlowFacts.

Import SwapCollector OrderFlow OrderFlowSamples.

(** ** Dictionaries *)

Lemma get_touch_eq {V} (k : string) (f : V → V) (dflt : V) (d : list (string * V)) :
  get k (touch k f dflt d) = Some (f (default dflt (get k d))).
Proof.
  induction d as [|[k' v] d IH]; simpl.
  - by rewrite decide_True.
  - destruct (decide (k' = k)) as [->|Hne]; simpl.
    + by rewrite decide_True.
    + by rewrite decide_False.
Qed.

Lemma get_touch_ne {V} (k k' : string) (f : V → V) (dflt : V) (d : list (string * V)) :
  k' ≠ k → get k' (touch k f dflt d) = get k' d.
Proof.
  intros Hne. induction d as [|[k0 v] d IH]; simpl.
  - by rewrite decide_False.
  - destruct (decide (k0 = k)) as [->|Hk]; simpl.
    + by rewrite !decide_False.
    + by rewrite IH.
Qed.

(** ** Sums over a stream *)

Lemma total_cons (f : Swap → Z) (s : Swap) (l : list Swap) :
  total f (s :: l) = f s + total f l.
Proof. done. Qed.

Lemma total_app (f : Swap → Z) (l1 l2 : list Swap) :
  total f (l1 ++ l2) = total f l1 + total f l2.
Proof. induction l1 as [|s l1 IH]; simpl; [done|]. rewrite IH. lia. Qed.



Lemma flow_field_total (π : FlowAcc → Z) (c : Swap → Z) :
  (∀ s a, π (flow_step a s) = π a + c s) →
  ∀ (swaps : list Swap) (a : FlowAcc),
    π (fold_left flow_step swaps a) = π a + total c swaps.
Proof.
  intros Hstep. induction swaps as [|s swaps IH]; intros a; simpl; [lia|].
  rewrite IH, Hstep. lia.
Qed.


Lemma keys_cons {V} (k : string) (v : V) (d : list (string * V)) :
  keys ((k, v) :: d) = k :: keys d.
Proof. done. Qed.

Lemma keys_touch {V} (k : string) (f : V → V) (dflt : V) (d : list (string * V)) :
  keys (touch k f dflt d) = if decide (k ∈ keys d) then keys d else keys d ++ [k].
Proof.
  induction d as [|[k' v] d IH].
  - destruct (decide (k ∈ keys [])) as [H|H]; [|done]. by apply elem_of_nil in H.
  - cbn [touch]. destruct (decide (k' = k)) as [->|Hne].
    + rewrite !keys_cons. rewrite decide_True; [done|]. apply elem_of_cons. by left.
    + rewrite !keys_cons, IH. destruct (decide (k ∈ keys d)) as [Hin|Hin].
      * rewrite decide_True; [done|]. apply elem_of_cons. by right.
      * rewrite decide_False; [done|]. rewrite elem_of_cons. intros [?|?]; done.
Qed.

(** ** Hourly buckets *)

Lemma total_plus (f g : Swap → Z) (swaps : list Swap) :
  total (fun s => f s + g s) swaps = total f swaps + total g swaps.
Proof. induction swaps as [|s swaps IH]; simpl; [done|]. rewrite IH. lia. Qed.

Lemma total_ext (f g : Swap → Z) (swaps : list Swap) :
  (∀ s, f s = g s) → total f swaps = total g swaps.
Proof. intros H. induction swaps as [|s swaps IH]; simpl; [done|]. by rewrite IH, H. Qed.

Lemma flow_step_hours (a : FlowAcc) (s : Swap) :
  keys (hourly_flow (flow_step a s))
  = if decide (hour_of s ∈ keys (hourly_flow a)) then keys (hourly_flow a)
    else keys (hourly_flow a) ++ [hour_of s].
Proof. unfold flow_step. case_decide; simpl; apply keys_touch. Qed.

Lemma flow_step_hour (a : FlowAcc) (s : Swap) (h : string) :
  h ∈ keys (hourly_flow (flow_step a s)) ↔ h ∈ keys (hourly_flow a) ∨ hour_of s = h.
Proof.
  rewrite flow_step_hours. case_decide as Hs.
  - split; [by left|]. intros [?| <-]; done.
  - rewrite elem_of_app, list_elem_of_singleton. split; intros [?|?]; auto.
Qed.

Lemma flow_hours (swaps : list Swap) (a : FlowAcc) :
  NoDup (keys (hourly_flow a)) →
  NoDup (keys (hourly_flow (fold_left flow_step swaps a))) ∧
  ∀ h, h ∈ keys (hourly_flow (fold_left flow_step swaps a))
       ↔ h ∈ keys (hourly_flow a) ∨ ∃ s, s ∈ swaps ∧ hour_of s = h.
Proof.
  revert a. induction swaps as [|s swaps IH]; intros a Hnd; simpl.
  - split; [done|]. intros h. split; [by left|].
    intros [?|(s & Hs & _)]; [done|]. by apply elem_of_nil in Hs.
  - destruct (IH (flow_step a s)) as [Hnd' Hin].
    { rewrite flow_step_hours. case_decide; [done|].
      apply NoDup_app. split; [done|]. split; [|apply NoDup_singleton].
      intros x Hx Hx'. apply list_elem_of_singleton in Hx'. by subst. }
    split; [done|]. intros h. rewrite Hin, flow_step_hour. split.
    + intros [[?| <-]|(s0 & Hs0 & <-)].
      * by left.
      * right. exists s. split; [apply elem_of_cons; by left | done].
      * right. exists s0. split; [apply elem_of_cons; by right | done].
    + intros [?|(s0 & Hs0 & <-)]; [by left; left|].
      apply elem_of_cons in Hs0 as [->|Hs0].
      * left. by right.
      * right. by exists s0.
Qed.

Lemma bucket_net_step (h : string) (a : FlowAcc) (s : Swap) :
  bucket_net (hourly_flow (flow_step a s)) h
  = bucket_net (hourly_flow a) h + of_hours [h] s.
Proof.
  unfold bucket_net, flow_step, of_hours.
  destruct (decide (hour_of s = h)) as [<-|Hne].
  - rewrite (decide_True (P := hour_of s ∈ [hour_of s]))
      by (apply list_elem_of_singleton; done).
    case_decide; simpl; rewrite get_touch_eq; simpl; lia.
  - rewrite (decide_False (P := hour_of s ∈ [h]))
      by (rewrite list_elem_of_singleton; done).
    case_decide; simpl; rewrite get_touch_ne by done; lia.
Qed.

Lemma bucket_net_total (swaps : list Swap) (h : string) :
  bucket_net (hourly_flow (flow_totals swaps)) h = total (of_hours [h]) swaps.
Proof.
  unfold flow_totals.
  rewrite (flow_field_total (fun a => bucket_net (hourly_flow a) h) (of_hours [h]))
    by (intros; apply bucket_net_step).
  done.
Qed.

Lemma sum_from (l : list Z) (z : Z) : fold_left Z.add l z = z + Py.sum l.
Proof.
  unfold Py.sum. revert z. induction l as [|x l IH]; intros z; cbn [fold_left]; [lia|].
  rewrite (IH (z + x)), (IH (0 + x)). lia.
Qed.

Lemma net_of_cons (flow : list (string * HourFlow)) (h : string) (hs : list string) :
  net_of flow (h :: hs) = bucket_net flow h + net_of flow hs.
Proof. unfold net_of, Py.sum. csimpl. rewrite sum_from. unfold bucket_net, Py.sum. lia. Qed.

(** The net flow of a window of distinct hours is what the swaps of those
    hours took out of the pool (buys) minus what they put in (sells). *)
Lemma net_of_total (swaps : list Swap) (hs : list string) :
  NoDup hs →
  net_of (hourly_flow (flow_totals swaps)) hs = total (of_hours hs) swaps.
Proof.
  induction 1 as [|h hs Hh Hnd IH].
  - unfold net_of, Py.sum. simpl. symmetry.
    induction swaps as [|s swaps IHs]; simpl; [done|]. rewrite IHs.
    unfold of_hours. rewrite decide_False; [done|]. apply not_elem_of_nil.
  - rewrite net_of_cons, IH, bucket_net_total, <- total_plus.
    apply total_ext. intros s. unfold of_hours.
    destruct (decide (hour_of s = h)) as [->|Hne].
    + rewrite (decide_True (P := h ∈ [h])) by (by apply list_elem_of_singleton).
      rewrite (decide_True (P := h ∈ h :: hs)) by (apply elem_of_cons; by left).
      rewrite decide_False by done. lia.
    + rewrite (decide_False (P := hour_of s ∈ [h]))
        by (by rewrite list_elem_of_singleton).
      destruct (decide (hour_of s ∈ hs)) as [Hin|Hin].
      * rewrite decide_True; [lia|]. apply elem_of_cons. by right.
      * rewrite decide_False; [lia|]. rewrite elem_of_cons. intros [?|?]; done.
Qed.

Lemma insert_string_perm (x : string) (l : list string) : insert_string x l ≡ₚ x :: l.
Proof.
  induction l as [|y l IH]; simpl; [done|].
  destruct (String.leb x y); [done|]. rewrite IH. apply Permutation_swap.
Qed.

Lemma sorted_perm (l : list string) : sorted l ≡ₚ l.
Proof.
  induction l as [|x l IH]; simpl; [done|]. by rewrite insert_string_perm, IH.
Qed.

Lemma insert_string_sorted (x : string) (l : list string) :
  Sorted hour_le l → Sorted hour_le (insert_string x l).
Proof.
  induction 1 as [|y l Hl IH Hy]; simpl.
  - by repeat constructor.
  - destruct (String.leb x y) eqn:E.
    + constructor; [by constructor|]. by constructor.
    + constructor; [done|].
      assert (Hyx : hour_le y x).
      { destruct (String.leb_total x y) as [H|H]; [congruence|done]. }
      destruct Hy as [|z l Hyz]; simpl; [by constructor|].
      destruct (String.leb x z); by constructor.
Qed.

Lemma sorted_sorted (l : list string) : Sorted hour_le (sorted l).
Proof.
  induction l as [|x l IH]; simpl; [constructor|]. by apply insert_string_sorted.
Qed.

(** ** Slices *)

Lemma slice_from_negative {A} (l : list A) (k : nat) :
  (0 < k ≤ length l)%nat →
  Py.slice_from l (- Z.of_nat k) = drop (length l - k) l.
Proof.
  intros Hk. unfold Py.slice_from, Py.slice_index.
  destruct (Z.ltb_spec (- Z.of_nat k) 0); [|lia]. f_equal. lia.
Qed.

Lemma slice_to_negative {A} (l : list A) (k : nat) :
  (0 < k ≤ length l)%nat →
  Py.slice_to l (- Z.of_nat k) = take (length l - k) l.
Proof.
  intros Hk. unfold Py.slice_to, Py.slice_index.
  destruct (Z.ltb_spec (- Z.of_nat k) 0); [|lia]. f_equal. lia.
Qed.

Lemma slice_to_nonnegative {A} (l : list A) (k : nat) :
  Py.slice_to l (Z.of_nat k) = take (k `min` length l) l.
Proof.
  unfold Py.slice_to, Py.slice_index.
  destruct (Z.ltb_spec (Z.of_nat k) 0); [lia|]. f_equal. lia.
Qed.

Ltac div_lia := Z.div_mod_to_equations; lia.

Lemma recent_hours_drop (hours : list string) :
  (2 ≤ length hours)%nat →
  recent_hours hours = drop (length hours - recent_size (length hours)) hours.
Proof.
  intros Hn. unfold recent_hours, recent_size.
  destruct (decide (Z.of_nat (length hours) >= 6)), (decide (6 ≤ length hours)%nat);
    try lia.
  - apply (slice_from_negative hours 6). lia.
  - replace (- Z.of_nat (length hours) / 2)
      with (- Z.of_nat (Z.to_nat ((Z.of_nat (length hours) + 1) / 2))) by div_lia.
    apply slice_from_negative. div_lia.
Qed.

Lemma older_hours_take (hours : list string) :
  (2 ≤ length hours)%nat →
  older_hours hours = take (length hours - recent_size (length hours)) hours.
Proof.
  intros Hn. unfold older_hours, recent_size.
  destruct (decide (Z.of_nat (length hours) >= 6)), (decide (6 ≤ length hours)%nat);
    try lia.
  - apply (slice_to_negative hours 6). lia.
  - replace (Z.of_nat (length hours) / 2)
      with (Z.of_nat (Z.to_nat (Z.of_nat (length hours) / 2))) by div_lia.
    rewrite slice_to_nonnegative. f_equal. div_lia.
Qed.

Lemma sign_cases (z : Z) :
  (if decide (z > 0) then 1%Q else if decide (z < 0) then (-1)%Q else 0%Q) = sign z.
Proof.
  unfold sign. repeat case_decide.
  - by rewrite Z.sgn_pos by lia.
  - by rewrite Z.sgn_neg by lia.
  - by replace z with 0 by lia.
Qed.

Lemma hours_of_stream (swaps : list Swap) :
  let hours := sorted (keys (hourly_flow (flow_totals swaps))) in
  NoDup hours ∧ Sorted hour_le hours ∧
  ∀ h, h ∈ hours ↔ ∃ s, s ∈ swaps ∧ hour_of s = h.
Proof.
  intros hours. unfold flow_totals in hours.
  destruct (flow_hours swaps {| acc_buy_volume := 0; acc_sell_volume := 0;
              acc_buy_count := 0; acc_sell_count := 0; hourly_flow := [] |})
    as [Hnd Hin]; [apply NoDup_nil_2|].
  split; [|split].
  - subst hours. by rewrite sorted_perm.
  - apply sorted_sorted.
  - intros h. subst hours. rewrite sorted_perm, Hin. split.
    + intros [H|H]; [by apply elem_of_nil in H | done].
    + by right.
Qed.

(** C3, as the function computes it.  The hourly buckets are the distinct
    hours of the swaps, taken in increasing order of their keys.  With [n]
    of them, the recent window is the last 6 buckets when [n >= 6] and the
    last [ceil(n/2)] buckets when [2 <= n < 6]; the older window is every
    bucket before it.  The net flow of a window is the token0 bought minus
    the token0 sold in its hours.  [trend_change] is
    [(recent - older) / |older|] when the older net flow is not zero, the
    sign of the recent net flow when it is, and 0 when fewer than two
    buckets exist. *)
Theorem trend_windows_split_at_six (swaps : list Swap) :
  swaps ≠ [] →
  let flow := hourly_flow (flow_totals swaps) in
  let hours := sorted (keys flow) in
  let n := length hours in
  let older := take (n - recent_size n) hours in
  let recent := drop (n - recent_size n) hours in
  let older_net := net_of flow older in
  let recent_net := net_of flow recent in
  ∃ m, compute_order_flow_metrics swaps = Some m ∧
    (NoDup hours ∧ Sorted hour_le hours ∧
     ∀ h, h ∈ hours ↔ ∃ s, s ∈ swaps ∧ hour_of s = h) ∧
    hours = older ++ recent ∧
    older_net = total (of_hours older) swaps ∧
    recent_net = total (of_hours recent) swaps ∧
    ((2 ≤ n)%nat →
       recent_hours hours = recent ∧ older_hours hours = older ∧
       length recent = recent_size n ∧
       (older_net ≠ 0 →
        trend_change m
          = (inject_Z (recent_net - older_net) / inject_Z (Z.abs older_net))%Q) ∧
       (older_net = 0 → trend_change m = sign recent_net)) ∧
    ((n < 2)%nat → trend_change m = 0%Q).
Proof.
  intros Hne flow hours n older recent older_net recent_net.
  pose proof (hours_of_stream swaps) as Hhours. cbv zeta in Hhours.
  fold flow in Hhours. fold hours in Hhours.
  assert (Hsplit : hours = older ++ recent) by (symmetry; apply take_drop).
  assert (Hnd : NoDup older ∧ NoDup recent).
  { destruct Hhours as [Hnd _]. rewrite Hsplit in Hnd.
    apply NoDup_app in Hnd as (? & _ & ?). done. }
  destruct swaps as [|s swaps]; [done|].
  eexists. split; [reflexivity|]. simpl trend_change. fold flow.
  unfold trend_change_of. fold hours. fold n.
  split; [exact Hhours|]. split; [exact Hsplit|].
  split; [apply net_of_total, Hnd|]. split; [apply net_of_total, Hnd|].
  split.
  - intros Hn. rewrite decide_True by lia.
    rewrite recent_hours_drop, older_hours_take by done.
    fold n. fold recent. fold older. split; [done|]. split; [done|].
    split.
    { unfold recent. rewrite length_drop. fold n. unfold recent_size.
      case_decide; [lia|]. div_lia. }
    unfold trend_of. fold older_net. fold recent_net. split.
    + intros Ho. by rewrite decide_True.
    + intros Ho. rewrite decide_False by lia. apply sign_cases.
  - intros Hn. by rewrite decide_False by lia.
Qed.

(** The eight-bucket stream: the function compares the last six buckets with
    the first two and returns 2; with the windows the specification words
    (the last four against the first four) the value would be 0. *)
Lemma trend_eight_buckets_uses_six :
  let flow := hourly_flow (flow_totals eight_hours) in
  let hours := sorted (keys flow) in
  length hours = 8%nat ∧
  length (recent_hours hours) = 6%nat ∧
  length (Claimed.recent_hours hours) = 4%nat ∧
  (trend_change <$> compute_order_flow_metrics eight_hours) = Some (40 # 20) ∧
  Claimed.trend_change_of flow = 0 # 40 ∧
  ¬ (40 # 20 == 0 # 40)%Q.
Proof. repeat split; try reflexivity. intros H; discriminate H. Qed.

(** The scan of [three_hours]: three buckets, the last two against the
    first. *)
Lemma trend_windows_witness :
  three_hours ≠ [] ∧
  ∃ m, compute_order_flow_metrics three_hours = Some m ∧
       trend_change m = (inject_Z (25 - 10) / inject_Z 10)%Q.
Proof.
  assert (H : three_hours ≠ []) by discriminate.
  split; [exact H|].
  destruct (trend_windows_split_at_six three_hours H)
    as (m & Hm & _ & _ & _ & _ & Hbig & _).
  exists m. split; [exact Hm|].
  destruct (Hbig ltac:(vm_compute; lia)) as (_ & _ & _ & Hq & _).
  apply Hq. vm_compute. discriminate.
Defined.

(** ** Bucket patterns *)



Section Patterns.

Variable window_key : Z → string → string.


End Patterns.

(** ** Whales *)

Lemma insert_by_volume_perm (x : string * Z * Wallet) (l : list (string * Z * Wallet)) :
  insert_by_volume x l ≡ₚ x :: l.
Proof.
  induction l as [|y l IH]; simpl; [done|].
  case_decide; [done|]. rewrite IH. apply Permutation_swap.
Qed.

Lemma sort_by_volume_perm (l : list (string * Z * Wallet)) : sort_by_volume l ≡ₚ l.
Proof.
  induction l as [|x l IH]; simpl; [done|].
  rewrite insert_by_volume_perm. by rewrite IH.
Qed.



Lemma max_one_truncated (q : Q) : Z.max 1 (Py.int_of_float q) = Z.max 1 (Qfloor q).
Proof.
  destruct q as [n d]. unfold Py.int_of_float, Qfloor. simpl.
  destruct (decide (0 ≤ n)) as [Hn|Hn].
  - by rewrite Z.quot_div_nonneg by lia.
  - assert (n `div` Z.pos d < 0) by (apply Z.div_lt_upper_bound; lia).
    assert (0 ≤ (- n) `quot` Z.pos d) by (apply Z.quot_pos; lia).
    rewrite Z.quot_opp_l in * by lia. lia.
Qed.

Lemma whale_count_floor (n : nat) (pct : Q) :
  whale_count n pct = Z.max 1 (Qfloor (inject_Z (Z.of_nat n) * pct / 100)).
Proof. apply max_one_truncated. Qed.




(** ** Swaps that move no token0 *)


Lemma touch_ext {V} (k : string) (f g : V → V) (dflt : V) (d : list (string * V)) :
  (∀ v, f v = g v) → touch k f dflt d = touch k g dflt d.
Proof.
  intros H. induction d as [|[k' v] d IH]; simpl; [by rewrite H|].
  case_decide; [by rewrite H | by rewrite IH].
Qed.

Lemma sum_snoc (l : list Z) (x : Z) : Py.sum (l ++ [x]) = Py.sum l + x.
Proof. unfold Py.sum. rewrite fold_left_app. done. Qed.

Section ZeroAmounts.

Variable window_key : Z → string → string.

Lemma window_step_record (window_hours : Z) (windows : list (string * Window))
    (swap : Swap) :
  window_step window_key window_hours windows swap
  = touch (window_key window_hours (datetime swap)) (window_record swap)
          {| buys := []; sells := [] |} windows.
Proof.
  unfold window_step, window_record.
  case_decide; apply touch_ext; intros w; done.
Qed.

Lemma window_fold_record (window_hours : Z) (swaps : list Swap)
    (d : list (string * Window)) :
  fold_left (window_step window_key window_hours) swaps d
  = fold_left (fun d s => touch (window_key window_hours (datetime s)) (window_record s)
                                {| buys := []; sells := [] |} d) swaps d.
Proof.
  revert d. induction swaps as [|s swaps IH]; intros d; simpl; [done|].
  by rewrite window_step_record, IH.
Qed.



End ZeroAmounts.



End OrderFlowFacts.


(** * Properties of the state normalizer *)

Module StateNormalizerFacts.

Import StateNormalizer NormalizerSamples.

Local Open Scope Q_scope.

(** ** Range normalisation *)

Lemma gt_iff (x y : Q) : Py.gt x y = true ↔ y < x.
Proof.
  unfold Py.gt. destruct (Qlt_le_dec y x) as [H|H]; split; try done.
  intros H'. exfalso. by apply (Qlt_not_le _ _ H').
Qed.

Lemma scale_in_range (low high x : Q) :
  low < high → scale low high x == 2 * (x - low) / (high - low) - 1.
Proof.
  intros H. unfold scale. apply gt_iff in H. by rewrite H.
Qed.



Lemma enumerate_snoc {A} (l : list A) (x : A) :
  enumerate (l ++ [x]) = enumerate l ++ [(length l, x)].
Proof. unfold enumerate. rewrite imap_app. simpl. by rewrite Nat.add_0_r. Qed.

Lemma normalize_with_snoc (table : list (Q * Q)) (r : Q * Q) (clip : Q) (state : list Q) :
  normalize_with (table ++ [r]) clip state
  = range_step clip state (normalize_with table clip state) (length table, r).
Proof. unfold normalize_with. by rewrite enumerate_snoc, fold_left_app. Qed.

Lemma normalize_with_length (table : list (Q * Q)) (clip : Q) (state : list Q) :
  length (normalize_with table clip state) = length state.
Proof.
  induction table as [|r table IH] using rev_ind.
  - unfold normalize_with. simpl. apply length_replicate.
  - rewrite normalize_with_snoc. destruct r as [low high]. simpl.
    destruct (state !! length table); [|done]. by rewrite length_insert.
Qed.

(** Slot [i] of the result: the clipped scaled input when the table has a
    range for it, and 0 beyond the table. *)
Lemma normalize_with_lookup (table : list (Q * Q)) (clip : Q) (state : list Q) (i : nat) :
  normalize_with table clip state !! i
  = x ← state !! i;
    Some match table !! i with
         | Some (low, high) => np_clip (scale low high x) (- clip) clip
         | None => 0
         end.
Proof.
  induction table as [|r table IH] using rev_ind.
  - unfold normalize_with. simpl.
    destruct (state !! i) as [x|] eqn:E; simpl.
    + apply lookup_replicate_2. by apply lookup_lt_Some in E.
    + apply lookup_ge_None. rewrite length_replicate. by apply lookup_ge_None.
  - rewrite normalize_with_snoc. destruct r as [low high]. simpl.
    destruct (decide (i = length table)) as [->|Hne].
    + destruct (state !! length table) as [x|] eqn:E; simpl.
      * rewrite list_lookup_insert_eq
          by (rewrite normalize_with_length; by apply lookup_lt_Some in E).
        by rewrite list_lookup_middle.
      * by rewrite IH.
    + assert (Hi : (table ++ [(low, high)]) !! i = table !! i).
      { destruct (decide (i < length table)%nat).
        - by rewrite lookup_app_l.
        - rewrite !lookup_ge_None_2; [done|lia|rewrite length_app; simpl; lia]. }
      rewrite Hi. destruct (state !! length table).
      * by rewrite list_lookup_insert_ne.
      * done.
Qed.

Lemma scale_endpoints (low high : Q) :
  low < high → scale low high low == -1 ∧ scale low high high == 1.
Proof.
  intros H.
  assert (Hd : ¬ high - low == 0).
  { intros E. apply Qlt_minus_iff in H. unfold Qminus in E.
    rewrite E in H. by apply Qlt_irrefl in H. }
  rewrite !scale_in_range by done. split; field; done.
Qed.

Lemma ranges_ordered : Forall (fun r : Q * Q => r.1 < r.2) ranges.
Proof.
  apply Forall_forall. intros r Hr.
  assert (Hb : forallb (fun r : Q * Q => Py.gt r.2 r.1) ranges = true)
    by (vm_compute; reflexivity).
  rewrite forallb_forall in Hb. apply gt_iff, Hb. by apply list_elem_of_In.
Qed.

Lemma normalize_by_range_slot (nz : Normalizer) (state : list Q) (i : nat)
    (x low high : Q) :
  ranges !! i = Some (low, high) → state !! i = Some x →
  normalize_by_range nz state !! i
  = Some (np_clip (scale low high x) (- clip_range nz) (clip_range nz)).
Proof.
  intros Hr Hs. unfold normalize_by_range.
  by rewrite normalize_with_lookup, Hs, Hr.
Qed.






(** ** Persistence *)

Lemma floats_read_back (l : list Q) : float_of <$> (JFloat <$> l) = l.
Proof. induction l as [|x l IH]; csimpl; [done|]. by rewrite IH. Qed.

Section RoundTrip.

Variable np_sqrt : Q → Q.

(** C9. [load] after [save] succeeds and restores [state_dim],
    [clip_range], [mean], [var] and [count] exactly, whatever the object
    loaded into held before; [normalize_running] then gives the same output
    on every input. *)
Theorem save_load_round_trip (nz nz0 : Normalizer) (path : string)
    (fs : gmap string (list (string * Json))) :
  ∃ nz', load nz0 path (save nz path fs) = Some nz' ∧
    state_dim nz' = state_dim nz ∧
    clip_range nz' = clip_range nz ∧
    mean nz' = mean nz ∧
    var nz' = var nz ∧
    count nz' = count nz ∧
    ∀ state, normalize_running np_sqrt nz' state = normalize_running np_sqrt nz state.
Proof.
  exists nz. split; [|done].
  unfold load, save. rewrite lookup_insert_eq. simpl.
  rewrite !floats_read_back. by destruct nz.
Qed.

End RoundTrip.

(** ** Running statistics *)

Lemma qsum_snoc (xs : list Q) (x : Q) : qsum (xs ++ [x]) == qsum xs + x.
Proof.
  induction xs as [|y xs IH]; simpl; [ring|]. rewrite IH. ring.
Qed.

Lemma squares_snoc (xs : list Q) (x : Q) : squares (xs ++ [x]) == squares xs + x * x.
Proof. unfold squares. rewrite fmap_app. apply qsum_snoc. Qed.

Lemma count_succ (n : nat) : inject_Z (Z.of_nat (S n)) == inject_Z (Z.of_nat n) + 1.
Proof. rewrite Nat2Z.inj_succ. unfold Z.succ. by rewrite inject_Z_plus. Qed.

Lemma squared_deviations_expand (xs : list Q) (m : Q) :
  squared_deviations xs m
  == squares xs - 2 * m * qsum xs + inject_Z (Z.of_nat (length xs)) * m * m.
Proof.
  unfold squared_deviations, squares.
  induction xs as [|x xs IH].
  - simpl. ring.
  - change (length (x :: xs)) with (S (length xs)). rewrite count_succ.
    csimpl. rewrite IH. ring.
Qed.

Lemma count_positive (n : nat) : ¬ inject_Z (Z.of_nat (S n)) == 0.
Proof. unfold Qeq. simpl. lia. Qed.

(** Welford's recurrence on one slot, started as [__init__] starts it
    (mean 0, var 1): the mean is the arithmetic mean and var is 1 plus the
    sum of squared deviations from it. *)
Lemma slot_statistics (xs : list Q) :
  ∃ m v, fold_left slot_step xs (0%Z, 0, 1) = (Z.of_nat (length xs), m, v) ∧
         m == arithmetic_mean xs ∧
         v == 1 + squared_deviations xs m.
Proof.
  induction xs as [|x xs IH] using rev_ind.
  - exists 0, 1. split; [done|]. split; reflexivity.
  - destruct IH as (m & v & Hrun & Hm & Hv).
    rewrite fold_left_app, Hrun. simpl.
    replace (Z.of_nat (length xs) + 1)%Z with (Z.of_nat (S (length xs))) by lia.
    replace (length (xs ++ [x])) with (S (length xs)) by (rewrite length_app; simpl; lia).
    eexists _, _. split; [reflexivity|].
    pose proof (count_positive (length xs)) as Hpos.
    rewrite squared_deviations_expand in Hv.
    rewrite squared_deviations_expand.
    unfold arithmetic_mean in *.
    rewrite length_app, qsum_snoc, squares_snoc. simpl length.
    replace (length xs + 1)%nat with (S (length xs)) by lia.
    rewrite Hv. clear Hv Hrun v.
    destruct xs as [|y xs].
    + assert (Hm0 : m == 0) by (rewrite Hm; reflexivity).
      simpl. rewrite Hm0. split; field.
    + pose proof (count_positive (length xs)) as Hpos'.
      change (length (y :: xs)) with (S (length xs)) in *.
      rewrite Hm. rewrite (count_succ (S (length xs))) in *.
      set (N := inject_Z (Z.of_nat (S (length xs)))) in *.
      set (S1 := qsum (y :: xs)). set (S2 := squares (y :: xs)).
      split; field; done.
Qed.

Lemma update_slot (nz : Normalizer) (state : list Q) (i : nat) (m v x : Q) :
  mean nz !! i = Some m → var nz !! i = Some v → state !! i = Some x →
  ∃ m' v', slot_step (count nz, m, v) x = (count (update nz state), m', v') ∧
           mean (update nz state) !! i = Some m' ∧
           var (update nz state) !! i = Some v'.
Proof.
  intros Hm Hv Hx. eexists _, _. split; [reflexivity|].
  unfold update. simpl.
  repeat (rewrite ?lookup_zip_with, ?Hm, ?Hv, ?Hx; simpl). done.
Qed.

Lemma updates_slot (states : list (list Q)) (i : nat) :
  Forall (fun s : list Q => is_Some (s !! i)) states →
  ∀ (nz : Normalizer) (m v : Q),
    mean nz !! i = Some m → var nz !! i = Some v →
    ∃ m' v',
      fold_left slot_step (column i states) (count nz, m, v)
        = (count (updates nz states), m', v') ∧
      mean (updates nz states) !! i = Some m' ∧
      var (updates nz states) !! i = Some v'.
Proof.
  induction 1 as [|s states [x Hx] _ IH]; intros nz m v Hm Hv.
  - exists m, v. done.
  - destruct (update_slot nz s i m v x Hm Hv Hx) as (m1 & v1 & Hstep & Hm1 & Hv1).
    destruct (IH (update nz s) m1 v1 Hm1 Hv1) as (m' & v' & Hrun & Hm' & Hv').
    exists m', v'. split; [|done].
    change (updates nz (s :: states)) with (updates (update nz s) states).
    rewrite <- Hrun, <- Hstep. unfold column. csimpl. by rewrite Hx.
Qed.

(** What [update] computes.  After the observations [states], each with a
    slot [i], on a fresh normalizer: [count] is their number, the mean of
    slot [i] is the arithmetic mean of the slot's observations, and var is
    1 plus the sum of their squared deviations from that mean. *)
Lemma updates_statistics (dim : Z) (clip : Q) (states : list (list Q)) (i : nat) :
  (i < Z.to_nat dim)%nat →
  Forall (fun s : list Q => is_Some (s !! i)) states →
  let nz := updates (init dim clip) states in
  let xs := column i states in
  count nz = Z.of_nat (length states) ∧
  ∃ m v, mean nz !! i = Some m ∧ var nz !! i = Some v ∧
         m == arithmetic_mean xs ∧
         v == 1 + squared_deviations xs m.
Proof.
  intros Hi Hall nz xs.
  destruct (updates_slot states i Hall (init dim clip) 0 1) as (m & v & Hrun & Hm & Hv).
  { simpl. by apply lookup_replicate_2. }
  { simpl. by apply lookup_replicate_2. }
  destruct (slot_statistics xs) as (m' & v' & Hrun' & Hm' & Hv').
  subst xs. simpl in Hrun. rewrite Hrun in Hrun'. inversion Hrun'; subst m' v'.
  split.
  - subst nz. unfold column in *. rewrite length_fmap in *. done.
  - exists m, v. done.
Qed.

(** C4, at a fresh one-slot normalizer updated with 1 and then 3: the count
    is 2 and the mean is 2, but var is 3, while the squared deviations from
    the mean sum to 2; the radicand of [normalize_running] is then
    [3 + 1e-8], not the sample variance [2] plus [1e-8]. *)
Theorem var_starts_at_one :
  let nz := updates fresh two_states in
  count nz = 2%Z ∧
  Forall2 Qeq (mean nz) [2] ∧
  Forall2 Qeq (var nz) [3] ∧
  squared_deviations (column 0 two_states) 2 == 2 ∧
  ¬ Forall2 Qeq (var nz) [squared_deviations (column 0 two_states) 2] ∧
  Forall2 Qeq (radicand nz) [3 + 1e-8].
Proof.
  split; [reflexivity|]. split; [by repeat constructor|].
  split; [by repeat constructor|]. split; [reflexivity|]. split.
  - intros H. apply Forall2_cons_1 in H as [H _]. vm_compute in H. discriminate H.
  - by repeat constructor.
Qed.

End StateNormalizerFacts.


(** * Further properties of the collector *)

Module SwapCollectorMoreFacts.

Import SwapCollector CollectorSamples SwapCollectorAll SwapCollectorFacts.

Lemma range_from_length (n : nat) (start step : Z) :
  length (Py.range_from n start step) = n.
Proof. revert start. induction n as [|n IH]; intros start; simpl; [done|]. by rewrite IH. Qed.

Lemma range_from_lookup (n : nat) (start step : Z) (i : nat) :
  (i < n)%nat → Py.range_from n start step !! i = Some (start + Z.of_nat i * step).
Proof.
  revert start i. induction n as [|n IH]; intros start i Hi; [lia|].
  destruct i as [|i]; simpl.
  - f_equal. lia.
  - rewrite IH by lia. f_equal. lia.
Qed.

Lemma batches_lookup (from_block to_block : Z) (i : nat) (b : Z * Z) :
  batches from_block to_block !! i = Some b →
  b.1 = from_block + Z.of_nat i * BATCH_SIZE ∧
  b.2 = Z.min (b.1 + BATCH_SIZE - 1) to_block ∧
  b.1 ≤ to_block.
Proof.
  unfold batches, Py.range. rewrite list_lookup_fmap. intros H.
  destruct (Py.range_from _ _ _ !! i) as [s|] eqn:E; [|done].
  simpl in H. inversion H; subst b; clear H. simpl.
  assert (Hi : (i < Z.to_nat ((to_block + 1 - from_block + BATCH_SIZE - 1) / BATCH_SIZE))%nat).
  { apply lookup_lt_Some in E. by rewrite range_from_length in E. }
  rewrite range_from_lookup in E by done. inversion E; subst s.
  unfold BATCH_SIZE in *. split; [done|]. split; [done|].
  Z.div_mod_to_equations. lia.
Qed.

(** The sub-ranges [get_swaps] queries split the range: each lies within
    [from_block .. to_block] and spans at most 25 blocks, they follow each
    other without overlap, and every block of the range is in one of
    them. *)
Theorem batches_split_the_range (from_block to_block : Z) :
  let bs := batches from_block to_block in
  (∀ b, b ∈ bs →
        from_block ≤ b.1 ∧ b.1 ≤ b.2 ∧ b.2 ≤ to_block ∧ b.2 - b.1 < BATCH_SIZE) ∧
  (∀ (i : nat) b b', bs !! i = Some b → bs !! S i = Some b' → b'.1 = b.2 + 1) ∧
  (∀ (i j : nat) b b', bs !! i = Some b → bs !! j = Some b' → (i < j)%nat → b.2 < b'.1) ∧
  (∀ blk, from_block ≤ blk ≤ to_block → ∃ b, b ∈ bs ∧ b.1 ≤ blk ≤ b.2).
Proof.
  intros bs. split; [|split; [|split]].
  - intros b Hb. apply list_elem_of_lookup in Hb as [i Hi].
    apply batches_lookup in Hi as (H1 & H2 & H3). unfold BATCH_SIZE in *. lia.
  - intros i b b' Hb Hb'.
    apply batches_lookup in Hb as (H1 & H2 & H3).
    apply batches_lookup in Hb' as (H1' & H2' & H3'). unfold BATCH_SIZE in *. lia.
  - intros i j b b' Hb Hb' Hij.
    apply batches_lookup in Hb as (H1 & H2 & H3).
    apply batches_lookup in Hb' as (H1' & H2' & H3'). unfold BATCH_SIZE in *. lia.
  - intros blk Hblk.
    set (i := Z.to_nat ((blk - from_block) / 25)).
    assert (Hi : (i < length bs)%nat).
    { subst bs. unfold batches. rewrite length_fmap. unfold Py.range.
      rewrite range_from_length. subst i. unfold BATCH_SIZE.
      Z.div_mod_to_equations. lia. }
    destruct (lookup_lt_is_Some_2 bs i Hi) as [b Hb].
    exists b. split; [by eapply list_elem_of_lookup_2|].
    apply batches_lookup in Hb as (H1 & H2 & H3). subst i. unfold BATCH_SIZE in *.
    Z.div_mod_to_equations. lia.
Qed.

Section More.

Variable utc_isoformat : Z → string.

Lemma decode_log_identity (w3 : Web3) (log : Log) (s : Swap) :
  decode_log utc_isoformat w3 log = Some s →
  block s = blockNumber log ∧ tx_hash s = transactionHash log ∧
  log_index s = logIndex log ∧ get_block w3 (blockNumber log) = Some (timestamp s) ∧
  direction s = direction_of (amount0 s).
Proof.
  unfold decode_log. intros H.
  destruct (process_log w3 log) as [ev|]; simpl in H; [|done].
  destruct (get_block w3 (blockNumber log)) as [ts|]; simpl in H; [|done].
  by inversion H.
Qed.

(** [get_swaps] returns one swap for each fetched log that decodes, in the
    order of the logs, with the block number, transaction hash and log
    index of its log, the timestamp of its block and the direction derived
    from its amount; a log that does not decode is left out alone. *)
Theorem get_swaps_keeps_decodable_logs (w3 : Web3) (addr : string)
    (from_block to_block : Z) :
  let logs := concat (batch_logs w3 addr <$> batches from_block to_block) in
  let swaps := get_swaps utc_isoformat w3 addr from_block to_block in
  (fun s => (block s, tx_hash s, log_index s)) <$> swaps
  = (fun l => (blockNumber l, transactionHash l, logIndex l))
      <$> filter (fun l => is_Some (decode_log utc_isoformat w3 l)) logs ∧
  Forall (fun s => get_block w3 (block s) = Some (timestamp s) ∧
                   direction s = direction_of (amount0 s)) swaps ∧
  (length swaps ≤ length logs)%nat.
Proof.
  intros logs swaps. subst swaps. unfold get_swaps. rewrite fetch_logs_batches.
  fold logs. generalize logs. clear logs. intros logs.
  induction logs as [|l logs (IH1 & IH2 & IH3)]; [by repeat split|].
  csimpl. rewrite filter_cons.
  destruct (decode_log utc_isoformat w3 l) as [s|] eqn:E.
  - rewrite decide_True by done.
    apply decode_log_identity in E as (E1 & E2 & E3 & E4 & E5).
    csimpl. rewrite IH1, E1, E2, E3. split; [done|]. split; [|lia].
    constructor; [|done]. by rewrite E1.
  - rewrite decide_False by (by intros [? ?]). split; [done|]. split; [done|]. lia.
Qed.

(** The event log only grows.  A call that returns [count] appends
    exactly [count] lines to the file of its pool and day, each tagged with
    the pool's address and name and in the order of [get_swaps]; the lines
    the file had stay in front, and no other file changes. *)
Theorem collect_pool_appends (w3 : Web3) (st : Store) (name addr : string)
    (lookback : Z) (date : string) :
  let r := collect_pool utc_isoformat w3 st name addr lookback date in
  ∃ lines : list StoredSwap,
    length lines = r.1 ∧
    Forall (fun l => pool l = addr ∧ pool_name l = name) lines ∧
    default [] (daily_files r.2 !! (name, date))
      = default [] (daily_files st !! (name, date)) ++ lines ∧
    (∀ key, key ≠ (name, date) → daily_files r.2 !! key = daily_files st !! key).
Proof.
  intros r. subst r. unfold collect_pool.
  destruct (decide (_ >= _)) as [Hge|Hlt].
  { exists []. simpl. rewrite app_nil_r. repeat split; done. }
  destruct (get_swaps _ _ _ _ _) as [|s swaps] eqn:E.
  { exists []. simpl. rewrite app_nil_r. repeat split; done. }
  exists ((fun x => {| stored := x; pool := addr; pool_name := name |}) <$> s :: swaps).
  split; [by rewrite length_fmap|]. split; [|split].
  - apply Forall_fmap, Forall_forall. done.
  - unfold save_last_block, append_daily. cbn [daily_files snd].
    by rewrite lookup_insert_eq.
  - intros key Hkey. unfold save_last_block, append_daily. cbn [daily_files snd].
    by rewrite lookup_insert_ne.
Qed.


Lemma collect_pool_other_files (w3 : Web3) (st : Store) (name addr : string)
    (lookback : Z) (date : string) (p d : string) :
  p ≠ name →
  daily_files (collect_pool utc_isoformat w3 st name addr lookback date).2 !! (p, d)
  = daily_files st !! (p, d).
Proof.
  intros Hp. unfold collect_pool. case_decide; [done|].
  destruct (get_swaps _ _ _ _ _); simpl; [done|].
  rewrite lookup_insert_ne; [done|]. congruence.
Qed.

Lemma collect_all_step_checkpoint (node : string → option Web3) (clock : string → string)
    (lookback : Z) (acc : nat * Store) (kv : string * PoolConfig) (p : string) :
  let acc' := collect_all_step utc_isoformat node clock lookback acc kv in
  get_last_block acc.2 p ≤ get_last_block acc'.2 p ∧
  (kv.1 ≠ p →
   get_last_block acc'.2 p = get_last_block acc.2 p ∧
   ∀ d, daily_files acc'.2 !! (p, d) = daily_files acc.2 !! (p, d)).
Proof.
  intros acc'. subst acc'. unfold collect_all_step, collect_pool_config.
  destruct (address kv.2) as [a|]; simpl; [|by split].
  destruct (node kv.1) as [w3|]; simpl; [|by split].
  destruct (collect_pool utc_isoformat w3 acc.2 kv.1 a lookback (clock kv.1))
    as [count st'] eqn:E. simpl.
  assert (Hst : st' = (collect_pool utc_isoformat w3 acc.2 kv.1 a lookback (clock kv.1)).2)
    by (by rewrite E).
  destruct (collect_pool_checkpoint utc_isoformat w3 acc.2 kv.1 p a lookback (clock kv.1))
    as [Heq|(Hp & Hhead & Hlt)]; rewrite <- Hst in *.
  - split; [lia|]. intros Hne. split; [done|].
    intros d. rewrite Hst. apply collect_pool_other_files. congruence.
  - split; [lia|]. intros Hne. congruence.
Qed.

Lemma collect_all_fold_checkpoint (node : string → option Web3) (clock : string → string)
    (lookback : Z) (l : list (string * PoolConfig)) (acc : nat * Store) (p : string) :
  let acc' := fold_left (collect_all_step utc_isoformat node clock lookback) l acc in
  get_last_block acc.2 p ≤ get_last_block acc'.2 p ∧
  (p ∉ l.*1 →
   get_last_block acc'.2 p = get_last_block acc.2 p ∧
   ∀ d, daily_files acc'.2 !! (p, d) = daily_files acc.2 !! (p, d)).
Proof.
  revert acc. induction l as [|kv l IH]; intros acc; simpl; [by split|].
  destruct (IH (collect_all_step utc_isoformat node clock lookback acc kv)) as [IH1 IH2].
  destruct (collect_all_step_checkpoint node clock lookback acc kv p) as [H1 H2].
  split; [lia|]. intros Hp.
  rewrite not_elem_of_cons in Hp. destruct Hp as [Hne Hp].
  destruct (IH2 Hp) as [IH3 IH4]. destruct H2 as [H3 H4]; [done|].
  split; [congruence|]. intros d. by rewrite IH4, H4.
Qed.

(** [collect_all] never lowers a checkpoint, and a pool that is not
    enabled keeps its checkpoint and its event files, whatever happens to
    the pools that are collected (a pool whose configuration lacks an
    address, or whose node cannot be reached, is skipped). *)
Theorem collect_all_leaves_disabled_pools (node : string → option Web3)
    (clock : string → string) (pools : list (string * PoolConfig)) (st : Store)
    (lookback : Z) (p : string) :
  let st' := (collect_all utc_isoformat node clock pools st lookback).2 in
  get_last_block st p ≤ get_last_block st' p ∧
  (p ∉ (get_enabled_pools pools).*1 →
   get_last_block st' p = get_last_block st p ∧
   ∀ d, daily_files st' !! (p, d) = daily_files st !! (p, d)).
Proof.
  intros st'. subst st'. unfold collect_all.
  apply (collect_all_fold_checkpoint node clock lookback (get_enabled_pools pools)
           (0%nat, st) p).
Qed.

(** The first run looks back from the head.  For a pool whose
    checkpoint reads 0 (never synced), [collect_pool] scans the blocks
    from [head - lookback_blocks] to the head and sets the checkpoint to
    the head; with a look-back of 0 or less it scans nothing, returns 0
    and writes no checkpoint, so that every later call is a first run
    again. *)
Theorem first_run_looks_back_from_the_head (w3 : Web3) (st : Store) (name addr : string)
    (lookback : Z) (date : string) :
  get_last_block st name = 0 →
  let head := Z.of_N (block_number w3) in
  let r := collect_pool utc_isoformat w3 st name addr lookback date in
  (lookback ≤ 0 → r = (0%nat, st)) ∧
  (0 < lookback →
   r.1 = length (get_swaps utc_isoformat w3 addr (head - lookback) head) ∧
   get_last_block r.2 name = head ∧
   ∀ other, other ≠ name → get_last_block r.2 other = get_last_block st other).
Proof.
  intros Hz head r. subst r.
  assert (Hs : start_block st name head lookback = head - lookback)
    by (unfold start_block; by rewrite decide_True).
  split.
  - intros Hl. apply collect_pool_idle. fold head. lia.
  - intros Hl.
    destruct (collect_pool_scans utc_isoformat w3 st name addr lookback date)
      as (st1 & Hst1 & ->); [fold head; lia|].
    fold head. rewrite Hs. cbn [fst snd]. split; [done|].
    split; [apply get_last_block_save|].
    intros other Hne. rewrite get_last_block_save_ne by done. apply Hst1.
Qed.

(** The checkpoint file keeps one block number per pool:
    [get_last_block] returns what [save_last_block] wrote for that pool,
    also when the file did not exist before; writing the checkpoint of
    one pool leaves the checkpoint of every other pool and all event
    files as they were; and a pool without an entry reads 0. *)
Theorem checkpoints_are_kept_per_pool (st : Store) (name other : string) (blk : Z) :
  get_last_block (save_last_block st name blk) name = blk ∧
  (other ≠ name →
   get_last_block (save_last_block st name blk) other = get_last_block st other) ∧
  daily_files (save_last_block st name blk) = daily_files st ∧
  (last_block_file st = None → get_last_block st name = 0) ∧
  (∀ data, last_block_file st = Some data → data !! name = None →
           get_last_block st name = 0).
Proof.
  split; [apply get_last_block_save|].
  split; [intros Hne; by apply get_last_block_save_ne|].
  split; [done|]. unfold get_last_block.
  split; [by intros ->|]. by intros data -> ->.
Qed.

End More.


(** [two_pools]: the pool without the [enabled] key is not touched. *)
Lemma collect_all_witness :
  (("pool-b" : string) ∉ (get_enabled_pools two_pools).*1) ∧
  (get_last_block
     (collect_all iso_clock (fun _ => Some flaky_node) (fun _ => "2024-01-01"%string)
                  two_pools synced_at_40 1800).2 "pool-b" = 0).
Proof.
  assert (H : ("pool-b" : string) ∉ (get_enabled_pools two_pools).*1).
  { vm_compute. intros H. apply list_elem_of_singleton in H. discriminate H. }
  split; [exact H|].
  destruct (collect_all_leaves_disabled_pools iso_clock (fun _ => Some flaky_node)
              (fun _ => "2024-01-01"%string) two_pools synced_at_40 1800 "pool-b") as [_ H2].
  destruct (H2 H) as [H3 _]. rewrite H3. reflexivity.
Defined.

(** Blocks 41 to 100 are queried as 41-65, 66-90 and 91-100. *)
Lemma batches_split_witness :
  (41 ≤ 70 ≤ 100) ∧ ∃ b, b ∈ batches 41 100 ∧ b.1 ≤ 70 ≤ b.2.
Proof.
  assert (H : 41 ≤ 70 ≤ 100) by lia.
  split; [exact H|].
  exact (proj2 (proj2 (proj2 (batches_split_the_range 41 100))) 70 H).
Defined.

(** The file of another day is not touched by a sync of [pool-a]. *)
Lemma collect_pool_appends_witness :
  (("pool-a"%string, "2024-01-02"%string) ≠ ("pool-a"%string, "2024-01-01"%string)) ∧
  daily_files (collect_pool iso_clock flaky_node synced_at_40
                 "pool-a" "0xpool" 1800 "2024-01-01").2
    !! ("pool-a"%string, "2024-01-02"%string) = None.
Proof.
  assert (H : ("pool-a"%string, "2024-01-02"%string)
              ≠ ("pool-a"%string, "2024-01-01"%string)) by discriminate.
  split; [exact H|].
  destruct (collect_pool_appends iso_clock flaky_node synced_at_40
              "pool-a" "0xpool" 1800 "2024-01-01") as (lines & _ & _ & _ & Hother).
  rewrite (Hother _ H). reflexivity.
Defined.

(** A first run at head 100 with a look-back of 60 blocks. *)
Lemma first_run_witness :
  get_last_block never_synced "pool-a" = 0 ∧ 0 < 60 ∧
  get_last_block (collect_pool iso_clock flaky_node never_synced
                    "pool-a" "0xpool" 60 "2024-01-01").2 "pool-a" = 100.
Proof.
  assert (H : get_last_block never_synced "pool-a" = 0) by reflexivity.
  assert (H' : 0 < 60) by lia.
  split; [exact H|]. split; [exact H'|].
  destruct (first_run_looks_back_from_the_head iso_clock flaky_node never_synced
              "pool-a" "0xpool" 60 "2024-01-01" H) as [_ Hrun].
  exact (proj1 (proj2 (Hrun H'))).
Defined.

Lemma checkpoints_witness :
  ("pool-a"%string ≠ "pool-b"%string) ∧
  get_last_block (save_last_block synced_at_40 "pool-b" 77) "pool-a" = 40.
Proof.
  assert (H : "pool-a"%string ≠ "pool-b"%string) by discriminate.
  split; [exact H|].
  destruct (checkpoints_are_kept_per_pool synced_at_40 "pool-b" "pool-a" 77)
    as (_ & Hother & _).
  rewrite (Hother H). reflexivity.
Defined.

End SwapCollectorMoreFacts.


(** * Further properties of the order-flow analyzer *)

Module OrderFlowMoreFacts.

Import SwapCollector OrderFlow OrderFlowSamples OrderFlowNotions OrderFlowReport.
Import OrderFlowFacts.

(** ** Wallets *)

(** In a dictionary filled by [touch], the entry of [k] is what its own
    swaps made of the default value, and [k] has an entry exactly when it
    had one or one of the swaps is its own. *)
Lemma touch_fold_own {V} (key : Swap → string) (record : Swap → V → V) (dflt : V)
    (swaps : list Swap) (d : list (string * V)) (k : string) :
  let d' := fold_left (fun d s => touch (key s) (record s) dflt d) swaps d in
  default dflt (get k d')
  = fold_left (fun v s => record s v) (filter (fun s => key s = k) swaps)
              (default dflt (get k d)) ∧
  (is_Some (get k d') ↔ is_Some (get k d) ∨ ∃ s, s ∈ swaps ∧ key s = k).
Proof.
  revert d. induction swaps as [|s swaps IH]; intros d; simpl.
  - split; [done|]. split; [by left|]. intros [?|(s & Hs & _)]; [done|].
    by apply elem_of_nil in Hs.
  - destruct (IH (touch (key s) (record s) dflt d)) as [IH1 IH2].
    rewrite filter_cons. split.
    + rewrite IH1. destruct (decide (key s = k)) as [<-|Hne].
      * by rewrite get_touch_eq.
      * by rewrite get_touch_ne.
    + rewrite IH2. destruct (decide (key s = k)) as [<-|Hne].
      * rewrite get_touch_eq. split.
        -- intros _. right. exists s. split; [apply elem_of_cons; by left|done].
        -- intros _. left. done.
      * rewrite get_touch_ne by done. split.
        -- intros [?|(s0 & Hs0 & Hk)]; [by left|].
           right. exists s0. split; [apply elem_of_cons; by right|done].
        -- intros [?|(s0 & Hs0 & Hk)]; [by left|].
           apply elem_of_cons in Hs0 as [->|Hs0]; [done|]. right. by exists s0.
Qed.

Lemma touch_keys_nodup {V} (key : Swap → string) (record : Swap → V → V) (dflt : V)
    (swaps : list Swap) (d : list (string * V)) :
  NoDup (keys d) →
  NoDup (keys (fold_left (fun d s => touch (key s) (record s) dflt d) swaps d)).
Proof.
  revert d. induction swaps as [|s swaps IH]; intros d Hd; simpl; [done|].
  apply IH. rewrite keys_touch. case_decide; [done|].
  apply NoDup_app. split; [done|]. split; [|apply NoDup_singleton].
  intros x Hx Hx'. apply list_elem_of_singleton in Hx'. by subst.
Qed.

Lemma get_elem_of {V} (k : string) (v : V) (d : list (string * V)) :
  get k d = Some v → (k, v) ∈ d.
Proof.
  induction d as [|[k' v'] d IH]; simpl; [done|].
  case_decide as Hk.
  - intros [= ->]. subst. apply elem_of_cons. by left.
  - intros H. apply elem_of_cons. right. by apply IH.
Qed.

Lemma elem_of_get {V} (k : string) (v : V) (d : list (string * V)) :
  NoDup (keys d) → (k, v) ∈ d → get k d = Some v.
Proof.
  induction d as [|[k' v'] d IH]; intros Hnd Hin; [by apply elem_of_nil in Hin|].
  rewrite keys_cons in Hnd. apply NoDup_cons in Hnd as [Hk' Hnd].
  apply elem_of_cons in Hin as [[= -> ->]|Hin]; simpl.
  - by rewrite decide_True.
  - rewrite decide_False; [by apply IH|].
    intros ->. apply Hk'. unfold keys. apply list_elem_of_fmap. by exists (k, v).
Qed.

Lemma foldr_sum_snoc {A} (f : A → Z) (l : list A) (x : A) :
  foldr (fun a t => f a + t) 0 (l ++ [x]) = foldr (fun a t => f a + t) 0 l + f x.
Proof.
  rewrite foldr_app. simpl. generalize (f x).
  induction l as [|a l IH]; intros z; simpl; [lia|]. rewrite IH. lia.
Qed.

Lemma record_all_snoc (swaps : list Swap) (s : Swap) :
  record_all (swaps ++ [s]) = record_swap s (record_all swaps).
Proof. unfold record_all. by rewrite fold_left_app. Qed.

(** What holds of the record built from any list of swaps. *)
Lemma record_all_facts (swaps : list Swap) :
  let w := record_all swaps in
  net_token0 w = buy_volume_token0 w - sell_volume_token0 w ∧
  buy_count w + sell_count w = Z.of_nat (length swaps) ∧
  0 ≤ buy_count w ∧ 0 ≤ sell_count w ∧
  0 ≤ buy_volume_token0 w ∧ 0 ≤ sell_volume_token0 w ∧
  0 ≤ buy_volume_token1 w ∧ 0 ≤ sell_volume_token1 w ∧
  buy_volume_token0 w + sell_volume_token0 w = gross_volume swaps ∧
  net_token0 w = net_bought swaps ∧
  net_token1 w = - foldr (fun s t => amount1 s + t) 0 swaps ∧
  (fun t => (tx_datetime t, tx_amount0 t, tx_amount1 t)) <$> txs w
    = (fun s => (datetime s, amount0 s, amount1 s)) <$> swaps ∧
  first_seen w = head (datetime <$> swaps) ∧
  last_seen w = last (datetime <$> swaps).
Proof.
  induction swaps as [|s swaps IH] using rev_ind; [by repeat split|].
  rewrite record_all_snoc. cbv zeta in IH.
  destruct IH as (H1 & H2 & H3 & H4 & H5 & H6 & H7 & H8 & H9 & H10 & H11 & H12 & H13 & H14).
  assert (Hg : gross_volume (swaps ++ [s]) = gross_volume swaps + Z.abs (amount0 s))
    by apply (foldr_sum_snoc (fun s => Z.abs (amount0 s))).
  assert (Hn : net_bought (swaps ++ [s]) = net_bought swaps + - amount0 s)
    by apply (foldr_sum_snoc (fun s => - amount0 s)).
  pose proof (foldr_sum_snoc amount1 swaps s) as Hm.
  unfold record_swap. cbn [net_token0 buy_volume_token0 sell_volume_token0 buy_count
    sell_count buy_volume_token1 sell_volume_token1 net_token1 txs first_seen last_seen].
  rewrite length_app, Hg, Hn, Hm. simpl length.
  split_and!; try (repeat case_bool_decide; lia).
  - rewrite !fmap_app, H12. done.
  - rewrite H13, fmap_app. by destruct swaps.
  - rewrite fmap_app. change (datetime <$> [s]) with [datetime s].
    by rewrite last_snoc.
Qed.

Lemma touch_entries {V} (key : Swap → string) (record : Swap → V → V) (dflt : V)
    (swaps : list Swap) :
  let d := fold_left (fun d s => touch (key s) (record s) dflt d) swaps [] in
  NoDup (keys d) ∧
  (∀ k, k ∈ keys d ↔ ∃ s, s ∈ swaps ∧ key s = k) ∧
  (∀ k v, (k, v) ∈ d →
     filter (fun s => key s = k) swaps ≠ [] ∧
     v = fold_left (fun v s => record s v) (filter (fun s => key s = k) swaps) dflt).
Proof.
  intros d. subst d.
  assert (Hnd : NoDup (keys (fold_left
            (fun d s => touch (key s) (record s) dflt d) swaps [])))
    by (apply touch_keys_nodup, NoDup_nil_2).
  assert (Hin : ∀ k, is_Some (get k (fold_left
            (fun d s => touch (key s) (record s) dflt d) swaps []))
            ↔ ∃ s, s ∈ swaps ∧ key s = k).
  { intros k. destruct (touch_fold_own key record dflt swaps [] k) as [_ ->].
    split; [|by right]. intros [[? H]|?]; [done|done]. }
  split; [done|]. split.
  - intros k. etrans; [|apply Hin]. split.
    + intros Hk. unfold keys in Hk. apply list_elem_of_fmap in Hk as ([k' w] & -> & Hkw).
      exists w. by apply elem_of_get.
    + intros [w Hw]. apply get_elem_of in Hw. unfold keys.
      apply list_elem_of_fmap. by exists (k, w).
  - intros k w Hkw. apply elem_of_get in Hkw; [|done].
    destruct (touch_fold_own key record dflt swaps [] k) as [Hown _].
    cbv zeta in Hown. rewrite Hkw in Hown. simpl in Hown. split; [|exact Hown].
    assert (Hs : ∃ s, s ∈ swaps ∧ key s = k) by (apply Hin; by rewrite Hkw).
    destruct Hs as (s & Hs & Hk). intros Hnil.
    assert (Hmem : s ∈ filter (fun s => key s = k) swaps)
      by (apply list_elem_of_filter; done).
    rewrite Hnil in Hmem. by apply elem_of_nil in Hmem.
Qed.

Lemma wallet_entries (swaps : list Swap) :
  let wallets := analyze_wallet_activity swaps in
  NoDup (keys wallets) ∧
  (∀ k, k ∈ keys wallets ↔ ∃ s, s ∈ swaps ∧ recipient s = k) ∧
  (∀ k w, (k, w) ∈ wallets → swaps_of k swaps ≠ [] ∧ w = record_all (swaps_of k swaps)).
Proof. exact (touch_entries recipient record_swap new_wallet swaps). Qed.

(** [analyze_wallet_activity] keeps the wallets apart: the wallets are the
    distinct recipients, and the record of each is what its own swaps, in
    their order, make of an empty record. *)
Theorem wallets_are_independent (swaps : list Swap) :
  let wallets := analyze_wallet_activity swaps in
  NoDup (keys wallets) ∧
  (∀ k, k ∈ keys wallets ↔ ∃ s, s ∈ swaps ∧ recipient s = k) ∧
  (∀ k w, (k, w) ∈ wallets → swaps_of k swaps ≠ [] ∧ w = record_all (swaps_of k swaps)).
Proof. exact (wallet_entries swaps). Qed.

(** Every record [analyze_wallet_activity] returns is consistent: the
    token0 net position is the buy volume minus the sell volume, the buy
    and sell counts add up to the number of transactions listed, which are
    the wallet's swaps in order, no count or volume is negative, and the
    first and last seen dates are those of its first and last swap. *)
Theorem wallet_records_are_consistent (swaps : list Swap) (k : string) (w : Wallet) :
  (k, w) ∈ analyze_wallet_activity swaps →
  net_token0 w = buy_volume_token0 w - sell_volume_token0 w ∧
  buy_count w + sell_count w = Z.of_nat (length (txs w)) ∧
  0 < buy_count w + sell_count w ∧
  0 ≤ buy_count w ∧ 0 ≤ sell_count w ∧
  0 ≤ buy_volume_token0 w ∧ 0 ≤ sell_volume_token0 w ∧
  0 ≤ buy_volume_token1 w ∧ 0 ≤ sell_volume_token1 w ∧
  (fun t => (tx_datetime t, tx_amount0 t, tx_amount1 t)) <$> txs w
    = (fun s => (datetime s, amount0 s, amount1 s)) <$> swaps_of k swaps ∧
  first_seen w = head (datetime <$> swaps_of k swaps) ∧
  last_seen w = last (datetime <$> swaps_of k swaps) ∧
  is_Some (first_seen w) ∧ is_Some (last_seen w).
Proof.
  intros Hkw.
  destruct (wallet_entries swaps) as (_ & _ & Hown).
  destruct (Hown k w Hkw) as [Hne ->].
  pose proof (record_all_facts (swaps_of k swaps)) as F. cbv zeta in F.
  destruct F as (H1 & H2 & H3 & H4 & H5 & H6 & H7 & H8 & H9 & H10 & H11 & H12 & H13 & H14).
  assert (Hlen : length (txs (record_all (swaps_of k swaps))) = length (swaps_of k swaps)).
  { rewrite <- (length_fmap (fun t => (tx_datetime t, tx_amount0 t, tx_amount1 t))), H12.
    by rewrite length_fmap. }
  assert (Hpos : (0 < length (swaps_of k swaps))%nat)
    by (destruct (swaps_of k swaps); [done|simpl; lia]).
  split_and!; try done; try lia.
  - rewrite H13. destruct (swaps_of k swaps); [done|]. by eexists.
  - rewrite H14. destruct (swaps_of k swaps) as [|x xs] using rev_ind; [done|].
    rewrite fmap_app. change (datetime <$> [x]) with [datetime x].
    rewrite last_snoc. by eexists.
Qed.

Lemma wallets_independent_witness :
  let w := record_all (swaps_of "0xbob" three_hours) in
  (("0xbob"%string, w) ∈ analyze_wallet_activity three_hours) ∧
  w = record_all (swaps_of "0xbob" three_hours).
Proof.
  assert (H : ("0xbob"%string, record_all (swaps_of "0xbob" three_hours))
              ∈ analyze_wallet_activity three_hours).
  { apply elem_of_cons. right. apply elem_of_cons. by left. }
  split; [exact H|].
  exact (proj2 (proj2 (proj2 (wallets_are_independent three_hours)) _ _ H)).
Defined.

Lemma wallet_records_witness :
  let w := record_all (swaps_of "0xbob" three_hours) in
  (("0xbob"%string, w) ∈ analyze_wallet_activity three_hours) ∧
  net_token0 w = buy_volume_token0 w - sell_volume_token0 w.
Proof.
  assert (H : ("0xbob"%string, record_all (swaps_of "0xbob" three_hours))
              ∈ analyze_wallet_activity three_hours).
  { apply elem_of_cons. right. apply elem_of_cons. by left. }
  split; [exact H|].
  exact (proj1 (wallet_records_are_consistent three_hours _ _ H)).
Defined.

(** ** Aggregates *)

Lemma sum_values_touch {V} (π : V → Z) (k : string) (f : V → V) (dflt : V) (c : Z)
    (d : list (string * V)) :
  π dflt = 0 → (∀ v, π (f v) = π v + c) →
  sum_values π (touch k f dflt d) = sum_values π d + c.
Proof.
  intros H0 Hf. induction d as [|[k' v] d IH]; cbn [touch].
  - unfold sum_values. simpl. rewrite Hf, H0. lia.
  - case_decide.
    + unfold sum_values. simpl. rewrite Hf. lia.
    + unfold sum_values in *. simpl. rewrite IH. lia.
Qed.

Lemma sum_values_fold {V} (key : Swap → string) (record : Swap → V → V) (dflt : V)
    (π : V → Z) (c : Swap → Z) :
  π dflt = 0 → (∀ s v, π (record s v) = π v + c s) →
  ∀ (swaps : list Swap) (d : list (string * V)),
    sum_values π (fold_left (fun d s => touch (key s) (record s) dflt d) swaps d)
    = sum_values π d + total c swaps.
Proof.
  intros H0 Hstep. induction swaps as [|s swaps IH]; intros d; simpl; [lia|].
  rewrite IH, (sum_values_touch π _ _ _ (c s)) by auto. lia.
Qed.

Lemma wallets_sum (π : Wallet → Z) (c : Swap → Z) (swaps : list Swap) :
  π new_wallet = 0 → (∀ s w, π (record_swap s w) = π w + c s) →
  sum_values π (analyze_wallet_activity swaps) = total c swaps.
Proof.
  intros H0 Hstep. unfold analyze_wallet_activity.
  change (fold_left wallet_step)
    with (fold_left (fun d s => touch (recipient s) (record_swap s) new_wallet d)).
  by rewrite (sum_values_fold recipient record_swap new_wallet π c H0 Hstep).
Qed.

Lemma flow_sum (π : FlowAcc → Z) (c : Swap → Z) (swaps : list Swap) :
  π {| acc_buy_volume := 0; acc_sell_volume := 0;
       acc_buy_count := 0; acc_sell_count := 0; hourly_flow := [] |} = 0 →
  (∀ s a, π (flow_step a s) = π a + c s) →
  π (flow_totals swaps) = total c swaps.
Proof.
  intros H0 Hstep. unfold flow_totals.
  rewrite (flow_field_total π c Hstep), H0. lia.
Qed.

Lemma flow_buy_volume (swaps : list Swap) :
  acc_buy_volume (flow_totals swaps) = total bought swaps.
Proof.
  apply (flow_sum acc_buy_volume bought); [done|].
  intros s a. unfold flow_step, bought. case_decide; simpl; lia.
Qed.

Lemma flow_sell_volume (swaps : list Swap) :
  acc_sell_volume (flow_totals swaps) = total sold swaps.
Proof.
  apply (flow_sum acc_sell_volume sold); [done|].
  intros s a. unfold flow_step, sold. case_decide; simpl; lia.
Qed.

Lemma flow_buy_count (swaps : list Swap) :
  acc_buy_count (flow_totals swaps) = total is_buy swaps.
Proof.
  apply (flow_sum acc_buy_count is_buy); [done|].
  intros s a. unfold flow_step, is_buy. case_decide; simpl; lia.
Qed.

Lemma flow_sell_count (swaps : list Swap) :
  acc_sell_count (flow_totals swaps) = total is_sell swaps.
Proof.
  apply (flow_sum acc_sell_count is_sell); [done|].
  intros s a. unfold flow_step, is_sell. case_decide; simpl; lia.
Qed.

Lemma total_nonneg (f : Swap → Z) (swaps : list Swap) :
  (∀ s, 0 ≤ f s) → 0 ≤ total f swaps.
Proof.
  intros H. induction swaps as [|s swaps IH]; simpl; [done|]. specialize (H s). lia.
Qed.

Lemma total_volumes (swaps : list Swap) :
  total bought swaps + total sold swaps = gross_volume swaps ∧
  total bought swaps - total sold swaps = net_bought swaps ∧
  total is_buy swaps + total is_sell swaps = Z.of_nat (length swaps) ∧
  total is_buy swaps = Z.of_nat (length (filter (fun s => amount0 s < 0) swaps)) ∧
  0 ≤ total bought swaps ∧ 0 ≤ total sold swaps ∧
  0 ≤ total is_buy swaps ∧ 0 ≤ total is_sell swaps.
Proof.
  induction swaps as [|s swaps IH]; [done|].
  rewrite !total_cons, filter_cons. unfold gross_volume, net_bought in *.
  cbn [foldr length]. unfold bought at 1 3 5, sold at 1 3 5, is_buy at 1 3 5, is_sell at 1 3.
  destruct IH as (H1 & H2 & H3 & H4 & H5 & H6 & H7 & H8).
  case_decide; cbn [length]; split_and!; lia.
Qed.

Lemma compute_some (swaps : list Swap) :
  swaps ≠ [] →
  compute_order_flow_metrics swaps
  = Some (let a := flow_totals swaps in
          let b := acc_buy_volume a in
          let s := acc_sell_volume a in
          {| total_buy_volume := b;
             total_sell_volume := s;
             net_flow := b - s;
             m_buy_count := acc_buy_count a;
             m_sell_count := acc_sell_count a;
             buy_sell_ratio :=
               if decide (s > 0) then (inject_Z b / inject_Z s)%Q
               else if decide (b > 0) then 999%Q else 1%Q;
             order_flow_imbalance :=
               if decide (b + s > 0)
               then (inject_Z (b - s) / inject_Z (b + s))%Q
               else 0%Q;
             trend_change := trend_change_of (hourly_flow a) |}).
Proof. by destruct swaps. Qed.

(** The totals of [compute_order_flow_metrics] account for every swap:
    the two counts add up to the number of swaps, the buy count is the
    number of swaps with a negative [amount0], the two volumes add up to
    the sum of [|amount0|], the net flow is the token0 taken out of the
    pool minus the token0 put in, and no count or volume is negative.
    For no swaps the function returns the empty dictionary. *)
Theorem metrics_account_for_every_swap (swaps : list Swap) :
  compute_order_flow_metrics [] = None ∧
  (swaps ≠ [] →
   ∃ m, compute_order_flow_metrics swaps = Some m ∧
     m_buy_count m + m_sell_count m = Z.of_nat (length swaps) ∧
     m_buy_count m = Z.of_nat (length (filter (fun s => amount0 s < 0) swaps)) ∧
     total_buy_volume m + total_sell_volume m = gross_volume swaps ∧
     net_flow m = net_bought swaps ∧
     net_flow m = total_buy_volume m - total_sell_volume m ∧
     0 ≤ m_buy_count m ∧ 0 ≤ m_sell_count m ∧
     0 ≤ total_buy_volume m ∧ 0 ≤ total_sell_volume m).
Proof.
  split; [done|]. intros Hne. eexists. split; [by apply compute_some|].
  cbn [m_buy_count m_sell_count total_buy_volume total_sell_volume net_flow].
  rewrite flow_buy_volume, flow_sell_volume, flow_buy_count, flow_sell_count.
  destruct (total_volumes swaps) as (H1 & H2 & H3 & H4 & H5 & H6 & H7 & H8).
  split_and!; lia.
Qed.

Lemma metrics_account_witness :
  two_buys ≠ [] ∧
  ∃ m, compute_order_flow_metrics two_buys = Some m ∧
       m_buy_count m + m_sell_count m = Z.of_nat (length two_buys).
Proof.
  split; [done|].
  destruct (metrics_account_for_every_swap two_buys) as [_ H].
  destruct (H ltac:(done)) as (m & Hm & Hc & _). by exists m.
Defined.

(** The wallet records and the pool metrics agree: summed over the
    wallets of [analyze_wallet_activity], the token0 buy and sell volumes,
    the buy and sell counts and the token0 net position are the totals
    [compute_order_flow_metrics] reports for the same swaps. *)
Theorem wallets_add_up_to_metrics (swaps : list Swap) (m : Metrics) :
  compute_order_flow_metrics swaps = Some m →
  let wallets := analyze_wallet_activity swaps in
  sum_values buy_volume_token0 wallets = total_buy_volume m ∧
  sum_values sell_volume_token0 wallets = total_sell_volume m ∧
  sum_values buy_count wallets = m_buy_count m ∧
  sum_values sell_count wallets = m_sell_count m ∧
  sum_values net_token0 wallets = net_flow m ∧
  sum_values (fun w => Z.of_nat (length (txs w))) wallets = Z.of_nat (length swaps).
Proof.
  intros Hm wallets. subst wallets.
  destruct (decide (swaps = [])) as [->|Hne]; [done|].
  rewrite compute_some in Hm by done. injection Hm as <-.
  cbn [m_buy_count m_sell_count total_buy_volume total_sell_volume net_flow].
  rewrite flow_buy_volume, flow_sell_volume, flow_buy_count, flow_sell_count.
  destruct (total_volumes swaps) as (H1 & H2 & H3 & H4 & H5 & H6 & H7 & H8).
  rewrite (wallets_sum buy_volume_token0 bought), (wallets_sum sell_volume_token0 sold),
    (wallets_sum buy_count is_buy), (wallets_sum sell_count is_sell),
    (wallets_sum net_token0 (fun s => - amount0 s)),
    (wallets_sum (fun w => Z.of_nat (length (txs w))) (fun _ => 1));
    try done;
    try (intros s w; unfold record_swap, bought, sold, is_buy, is_sell; simpl;
         rewrite ?length_app; simpl; case_bool_decide; case_decide; lia).
  - split_and!; try done; try (by rewrite H2).
    clear. induction swaps as [|s swaps IH]; [done|]. rewrite total_cons, IH.
    simpl length. lia.
  - intros s w. unfold record_swap. cbn [txs]. rewrite length_app. simpl. lia.
Qed.

Lemma wallets_add_up_witness :
  ∃ m, compute_order_flow_metrics eight_hours = Some m ∧
       sum_values net_token0 (analyze_wallet_activity eight_hours) = net_flow m.
Proof.
  eexists. split; [reflexivity|].
  exact (proj1 (proj2 (proj2 (proj2 (proj2
    (wallets_add_up_to_metrics eight_hours _ eq_refl)))))).
Defined.

(** ** Ratios *)




(** ** The two trend windows *)

Lemma of_hours_split (older recent : list string) (s : Swap) :
  NoDup (older ++ recent) → hour_of s ∈ older ++ recent →
  of_hours older s + of_hours recent s = - amount0 s.
Proof.
  intros Hnd Hin. apply NoDup_app in Hnd as (_ & Hdis & _).
  unfold of_hours. apply elem_of_app in Hin.
  destruct (decide (hour_of s ∈ older)) as [Ho|Ho],
           (decide (hour_of s ∈ recent)) as [Hr|Hr]; try lia.
  - by destruct (Hdis _ Ho).
  - by destruct Hin.
Qed.

Lemma total_of_hours_split (older recent : list string) (swaps : list Swap) :
  NoDup (older ++ recent) →
  (∀ s, s ∈ swaps → hour_of s ∈ older ++ recent) →
  total (fun s => of_hours older s + of_hours recent s) swaps = net_bought swaps.
Proof.
  intros Hnd Hall. unfold net_bought.
  induction swaps as [|s swaps IH]; [done|].
  rewrite total_cons. cbn [foldr]. rewrite IH.
  - rewrite of_hours_split; [done|done|]. apply Hall, elem_of_cons. by left.
  - intros s' Hs'. apply Hall, elem_of_cons. by right.
Qed.

(** With at least two hourly buckets, the recent and the older window of
    [compute_order_flow_metrics] split the buckets between them: sorted
    hours = older ++ recent, neither is shared, and the two window net
    flows add up to the reported net flow. *)
Theorem trend_windows_cover_net_flow (swaps : list Swap) (m : Metrics) :
  compute_order_flow_metrics swaps = Some m →
  let flow := hourly_flow (flow_totals swaps) in
  let hours := sorted (keys flow) in
  (2 ≤ length hours)%nat →
  older_hours hours ++ recent_hours hours = hours ∧
  recent_hours hours ≠ [] ∧
  (∀ h, h ∈ older_hours hours → h ∉ recent_hours hours) ∧
  net_of flow (older_hours hours) + net_of flow (recent_hours hours) = net_flow m.
Proof.
  intros Hm flow hours Hn.
  destruct (decide (swaps = [])) as [->|Hne]; [done|].
  rewrite compute_some in Hm by done. injection Hm as <-. cbn [net_flow].
  destruct (hours_of_stream swaps) as (Hnd & _ & Hin). fold flow hours in Hnd, Hin.
  assert (Happ : older_hours hours ++ recent_hours hours = hours)
    by (rewrite recent_hours_drop, older_hours_take by done; apply take_drop).
  rewrite <- Happ in Hnd.
  pose proof Hnd as Hnd'. apply NoDup_app in Hnd' as (Hnd1 & Hdis & Hnd2).
  split_and!; [done| |done|].
  - rewrite recent_hours_drop by done. unfold recent_size.
    intros Hnil. apply (f_equal length) in Hnil. rewrite length_drop in Hnil.
    simpl in Hnil. case_decide; div_lia.
  - subst flow. rewrite !net_of_total by done.
    rewrite <- (total_plus (of_hours (older_hours hours)) (of_hours (recent_hours hours))).
    rewrite flow_buy_volume, flow_sell_volume.
    destruct (total_volumes swaps) as (_ & -> & _).
    apply total_of_hours_split; [done|].
    intros s Hs. rewrite Happ. apply Hin. by exists s.
Qed.

Lemma trend_windows_cover_witness :
  ∃ m, compute_order_flow_metrics eight_hours = Some m ∧
    let flow := hourly_flow (flow_totals eight_hours) in
    let hours := sorted (keys flow) in
    (2 ≤ length hours)%nat ∧
    net_of flow (older_hours hours) + net_of flow (recent_hours hours) = net_flow m.
Proof.
  eexists. split; [reflexivity|]. cbv zeta. split; [vm_compute; lia|].
  refine (proj2 (proj2 (proj2
    (trend_windows_cover_net_flow eight_hours _ eq_refl _)))).
  vm_compute. lia.
Defined.

(** ** Whales of a stream *)

Lemma insert_by_volume_stable (v : Z) (x : string * Z * Wallet)
    (l : list (string * Z * Wallet)) :
  filter (fun e => e.1.2 = v) (insert_by_volume x l) = filter (fun e => e.1.2 = v) (x :: l).
Proof.
  induction l as [|y l IH]; [done|]. cbn [insert_by_volume].
  case_decide as Hyx; [done|].
  rewrite filter_cons, IH, !filter_cons.
  destruct (decide (y.1.2 = v)), (decide (x.1.2 = v)); try done. lia.
Qed.

Lemma sort_by_volume_stable (v : Z) (l : list (string * Z * Wallet)) :
  filter (fun e => e.1.2 = v) (sort_by_volume l) = filter (fun e => e.1.2 = v) l.
Proof.
  induction l as [|x l IH]; [done|]. cbn [sort_by_volume foldr].
  fold (sort_by_volume l). by rewrite insert_by_volume_stable, !filter_cons, IH.
Qed.

Lemma identify_whales_prefix (wallet_activity : list (string * Wallet)) (pct : Q) :
  identify_whales wallet_activity pct
  `prefix_of` make_whale <$> sort_by_volume (volume_entry <$> wallet_activity).
Proof.
  unfold identify_whales. destruct wallet_activity as [|kv rest]; [apply prefix_nil|].
  unfold Py.slice_to. generalize (sort_by_volume (volume_entry <$> kv :: rest)).
  intros l. generalize (Py.slice_index l (whale_count (length l) pct)). intros k.
  exists (make_whale <$> drop k l). by rewrite <- fmap_app, take_drop.
Qed.

(** The ranking of [identify_whales] is stable: the whales are the first
    entries of the wallets sorted by decreasing volume, and wallets of
    equal volume stay in the order of the wallet dictionary, so that of
    two wallets with the same volume the one met first in the stream is
    listed first. *)
Theorem whales_of_equal_volume_keep_order
    (wallet_activity : list (string * Wallet)) (pct : Q) (v : Z) :
  let ranked := sort_by_volume (volume_entry <$> wallet_activity) in
  identify_whales wallet_activity pct `prefix_of` make_whale <$> ranked ∧
  filter (fun e => e.1.2 = v) ranked
  = filter (fun e => e.1.2 = v) (volume_entry <$> wallet_activity).
Proof. split; [apply identify_whales_prefix | apply sort_by_volume_stable]. Qed.

Lemma whale_is_a_wallet (wallet_activity : list (string * Wallet)) (pct : Q) (w : Whale) :
  w ∈ identify_whales wallet_activity pct →
  ∃ kv, kv ∈ wallet_activity ∧ w = make_whale (volume_entry kv).
Proof.
  intros Hw. destruct (identify_whales_prefix wallet_activity pct) as [rest Hrest].
  assert (Hin : w ∈ make_whale <$> sort_by_volume (volume_entry <$> wallet_activity))
    by (rewrite Hrest; apply elem_of_app; by left).
  apply list_elem_of_fmap in Hin as (e & -> & He).
  rewrite sort_by_volume_perm in He.
  apply list_elem_of_fmap in He as (kv & -> & Hkv). by exists kv.
Qed.

Lemma whale_addresses_nodup (wallet_activity : list (string * Wallet)) (pct : Q) :
  NoDup (keys wallet_activity) →
  NoDup (address <$> identify_whales wallet_activity pct).
Proof.
  intros Hnd. destruct (identify_whales_prefix wallet_activity pct) as [rest Hrest].
  assert (Hall : NoDup (address <$> (make_whale <$>
            sort_by_volume (volume_entry <$> wallet_activity)))).
  { rewrite <- list_fmap_compose.
    assert (Hp : (address ∘ make_whale) <$> sort_by_volume (volume_entry <$> wallet_activity)
                 ≡ₚ keys wallet_activity).
    { rewrite sort_by_volume_perm, <- list_fmap_compose. unfold keys.
      apply Permutation_refl', list_fmap_ext. by intros ? []. }
    by rewrite Hp. }
  rewrite Hrest, fmap_app in Hall. by apply NoDup_app in Hall as (? & _).
Qed.

(** Every whale reported for a stream of swaps is one of its wallets, no
    wallet is reported twice, and the entry tells the wallet's trading:
    the total volume is the sum of [|amount0|] over the wallet's swaps, the
    net position is the token0 it took out of the pool minus the token0 it
    put in, the two counts add up to the number of its swaps, and the
    behaviour is ACCUMULATING exactly when the net position is positive,
    DISTRIBUTING when negative, NEUTRAL when zero. *)
Theorem whales_report_their_wallets (swaps : list Swap) (pct : Q) :
  let whales := identify_whales (analyze_wallet_activity swaps) pct in
  NoDup (address <$> whales) ∧
  ∀ w, w ∈ whales →
    let own := swaps_of (address w) swaps in
    own ≠ [] ∧
    total_volume w = gross_volume own ∧
    whale_net_token0 w = net_bought own ∧
    whale_buy_count w + whale_sell_count w = Z.of_nat (length own) ∧
    0 ≤ total_volume w ∧
    (behavior w = ACCUMULATING ↔ 0 < net_bought own) ∧
    (behavior w = DISTRIBUTING ↔ net_bought own < 0) ∧
    (behavior w = NEUTRAL ↔ net_bought own = 0) ∧
    whale_first_seen w = head (datetime <$> own) ∧
    whale_last_seen w = last (datetime <$> own).
Proof.
  intros whales. subst whales.
  destruct (wallet_entries swaps) as (Hnd & _ & Hown).
  split; [by apply whale_addresses_nodup|].
  intros w Hw. apply whale_is_a_wallet in Hw as ([k data] & Hkv & ->).
  destruct (Hown k data Hkv) as [Hne ->].
  pose proof (record_all_facts (swaps_of k swaps)) as F. cbv zeta in F.
  destruct F as (H1 & H2 & H3 & H4 & H5 & H6 & H7 & H8 & H9 & H10 & H11 & H12 & H13 & H14).
  unfold make_whale, volume_entry.
  cbn [address total_volume whale_net_token0 whale_buy_count whale_sell_count behavior
       whale_first_seen whale_last_seen fst snd].
  rewrite <- H10.
  split_and!; try done; try lia;
    repeat case_decide; split; try done; try lia.
Qed.

Lemma whales_report_witness :
  let w := make_whale (volume_entry ("0xalice"%string,
                                     record_all (swaps_of "0xalice" three_hours))) in
  (w ∈ identify_whales (analyze_wallet_activity three_hours) 10) ∧
  total_volume w = gross_volume (swaps_of (address w) three_hours).
Proof.
  assert (H : make_whale (volume_entry ("0xalice"%string,
                                        record_all (swaps_of "0xalice" three_hours)))
              ∈ identify_whales (analyze_wallet_activity three_hours) 10).
  { apply elem_of_cons. by left. }
  split; [exact H|].
  exact (proj1 (proj2 (proj2 (whales_report_their_wallets three_hours 10) _ H))).
Defined.

(** ** Buckets *)

Lemma sum_values_perm {V} (f : V → Z) (d d' : list (string * V)) :
  d ≡ₚ d' → sum_values f d = sum_values f d'.
Proof.
  unfold sum_values. induction 1 as [|x l l' _ IH|x y l|l l' l'' _ IH1 _ IH2];
    simpl; lia.
Qed.

Lemma items_found {V} (d : list (string * V)) (ks : list string) :
  (∀ k, k ∈ ks → k ∈ keys d) →
  keys (omap (fun k => pair k <$> get k d) ks) = ks ∧
  ∀ kv, kv ∈ omap (fun k => pair k <$> get k d) ks ↔ kv.1 ∈ ks ∧ get kv.1 d = Some kv.2.
Proof.
  induction ks as [|k ks IH]; intros Hks.
  - split; [done|]. intros kv. simpl. rewrite elem_of_nil, elem_of_nil. tauto.
  - destruct IH as [IH1 IH2]; [intros k' Hk'; apply Hks, elem_of_cons; by right|].
    assert (Hk : k ∈ keys d) by (apply Hks, elem_of_cons; by left).
    unfold keys in Hk. apply list_elem_of_fmap in Hk as ([k0 v0] & -> & Hin).
    assert (∃ v, get k0 d = Some v) as [v Hv].
    { clear -Hin. induction d as [|[k' v'] d IH]; [by apply elem_of_nil in Hin|].
      simpl. case_decide; [by eexists|]. apply IH.
      apply elem_of_cons in Hin as [[= -> ->]|?]; done. }
    cbn [omap list_omap fst]. rewrite Hv. cbn [fmap option_fmap option_map].
    fold (omap (fun k => pair k <$> get k d) ks). split.
    + rewrite keys_cons. by rewrite IH1.
    + intros [k' v']. rewrite !elem_of_cons, IH2. cbn [fst snd]. split.
      * intros [[= -> ->]|[? ?]]; [by split; [left|] | by split; [right|]].
      * intros [[->|Hin'] Hg]; [left; congruence | right; done].
Qed.

Lemma items_by_key_facts {V} (d : list (string * V)) :
  NoDup (keys d) →
  keys (items_by_key d) = sorted (keys d) ∧ items_by_key d ≡ₚ d.
Proof.
  intros Hnd. unfold items_by_key.
  destruct (items_found d (sorted (keys d))) as [Hk Hin].
  { intros k. by rewrite sorted_perm. }
  split; [done|].
  apply NoDup_Permutation.
  - apply (NoDup_fmap_1 fst). fold (keys (omap (fun k => pair k <$> get k d)
                                             (sorted (keys d)))).
    rewrite Hk, sorted_perm. done.
  - by apply (NoDup_fmap_1 fst).
  - intros [k v]. rewrite Hin. cbn [fst snd]. rewrite sorted_perm. split.
    + intros [_ Hg]. by apply get_elem_of.
    + intros Hkv. split; [|by apply elem_of_get].
      unfold keys. apply list_elem_of_fmap. by exists (k, v).
Qed.

Lemma window_all_snoc (swaps : list Swap) (s : Swap) :
  window_all (swaps ++ [s]) = window_record s (window_all swaps).
Proof. unfold window_all. by rewrite fold_left_app. Qed.

Lemma window_all_facts (swaps : list Swap) :
  let w := window_all swaps in
  Py.sum (buys w) = total bought swaps ∧
  Py.sum (sells w) = total sold swaps ∧
  Z.of_nat (length (buys w)) = total is_buy swaps ∧
  Z.of_nat (length (sells w)) = total is_sell swaps ∧
  buys w = (fun s => Z.abs (amount0 s)) <$> filter (fun s => amount0 s < 0) swaps ∧
  sells w = (fun s => Z.abs (amount0 s)) <$> filter (fun s => ¬ amount0 s < 0) swaps.
Proof.
  induction swaps as [|s swaps IH] using rev_ind; [done|].
  rewrite window_all_snoc. cbv zeta in IH. destruct IH as (H1 & H2 & H3 & H4 & H5 & H6).
  rewrite !total_app, !total_cons, !filter_app, !fmap_app, !filter_cons, !filter_nil.
  unfold window_record, bought, sold, is_buy, is_sell in *. cbn [total foldr].
  case_decide; cbn [buys sells]; rewrite ?sum_snoc, ?length_app; cbn [length];
    rewrite <- ?H5, <- ?H6; split_and!; try done; try lia;
    try (rewrite decide_True by done); try (rewrite decide_False by tauto);
    try done; by rewrite fmap_nil, app_nil_r.
Qed.

Lemma sum_over_fmap {A B} (f : B → Z) (g : A → B) (l : list A) :
  sum_over f (g <$> l) = sum_over (fun a => f (g a)) l.
Proof. induction l as [|a l IH]; [done|]. csimpl. unfold sum_over in *. simpl. by rewrite IH. Qed.

Section Buckets.

Variable window_key : Z → string → string.

Lemma window_entries (window_hours : Z) (swaps : list Swap) :
  let windows := fold_left (window_step window_key window_hours) swaps [] in
  NoDup (keys windows) ∧
  (∀ k, k ∈ keys windows ↔ ∃ s, s ∈ swaps ∧ window_key window_hours (datetime s) = k) ∧
  (∀ k w, (k, w) ∈ windows →
     swaps_in window_key window_hours k swaps ≠ [] ∧
     w = window_all (swaps_in window_key window_hours k swaps)) ∧
  (∀ (π : Window → Z) (c : Swap → Z),
     π {| buys := []; sells := [] |} = 0 →
     (∀ s w, π (window_record s w) = π w + c s) →
     sum_values π windows = total c swaps).
Proof.
  intros windows. subst windows. rewrite window_fold_record.
  split_and!; [| | |].
  - apply (touch_entries (fun s => window_key window_hours (datetime s)) window_record).
  - apply (touch_entries (fun s => window_key window_hours (datetime s)) window_record).
  - apply (touch_entries (fun s => window_key window_hours (datetime s)) window_record).
  - intros π c H0 Hstep.
    by rewrite (sum_values_fold (fun s => window_key window_hours (datetime s))
                  window_record _ π c H0 Hstep).
Qed.

(** The buckets of [detect_accumulation_distribution] partition the
    stream.  They are listed in increasing order of their keys, one for
    each bucket key some swap has; each holds exactly the swaps of its key
    (at least one): its volumes are the sums of [|amount0|] over its buys
    and over its sells, its counts their numbers.  Added up over the
    buckets, the volumes are the total buy and sell volumes of the stream
    and the counts the number of swaps. *)
Theorem windows_partition_the_stream (window_hours : Z) (swaps : list Swap)
    (ws : list WindowPattern) :
  detect_accumulation_distribution window_key swaps window_hours = Some ws →
  NoDup (window <$> ws) ∧
  Sorted hour_le (window <$> ws) ∧
  (∀ k, k ∈ window <$> ws ↔ ∃ s, s ∈ swaps ∧ window_key window_hours (datetime s) = k) ∧
  (∀ wp, wp ∈ ws →
     let own := swaps_in window_key window_hours (window wp) swaps in
     own ≠ [] ∧
     buy_volume wp = total bought own ∧ sell_volume wp = total sold own ∧
     wp_buy_count wp = total is_buy own ∧ wp_sell_count wp = total is_sell own ∧
     wp_buy_count wp + wp_sell_count wp = Z.of_nat (length own)) ∧
  sum_over buy_volume ws = total bought swaps ∧
  sum_over sell_volume ws = total sold swaps ∧
  sum_over (fun wp => wp_buy_count wp + wp_sell_count wp) ws = Z.of_nat (length swaps).
Proof.
  intros Hws. destruct (decide (swaps = [])) as [->|Hne]; [done|].
  assert (Hws' : ws = analyze_window <$>
            items_by_key (fold_left (window_step window_key window_hours) swaps [])).
  { destruct swaps; [done|]. by injection Hws as <-. }
  clear Hws. destruct (window_entries window_hours swaps) as (Hnd & Hin & Hown & Hsum).
  cbv zeta in *. set (windows := fold_left (window_step window_key window_hours) swaps [])
    in *.
  destruct (items_by_key_facts windows Hnd) as [Hkeys Hperm].
  assert (Hwk : window <$> ws = sorted (keys windows)).
  { rewrite Hws', <- list_fmap_compose, <- Hkeys. done. }
  split_and!.
  - rewrite Hwk, sorted_perm. done.
  - rewrite Hwk. apply sorted_sorted.
  - intros k. rewrite Hwk, sorted_perm. apply Hin.
  - intros wp Hwp. rewrite Hws' in Hwp.
    apply list_elem_of_fmap in Hwp as ([k w] & -> & Hkw). rewrite Hperm in Hkw.
    destruct (Hown k w Hkw) as [Hne' ->]. cbn [window analyze_window fst].
    split; [done|].
    pose proof (window_all_facts (swaps_in window_key window_hours k swaps)) as F.
    cbv zeta in F. destruct F as (F1 & F2 & F3 & F4 & _).
    unfold analyze_window.
    cbn [buy_volume sell_volume wp_buy_count wp_sell_count snd].
    destruct (total_volumes (swaps_in window_key window_hours k swaps))
      as (_ & _ & T3 & _).
    split_and!; try done. lia.
  - rewrite Hws', sum_over_fmap.
    change (sum_over (fun a => buy_volume (analyze_window a)) (items_by_key windows))
      with (sum_values (fun w => Py.sum (buys w)) (items_by_key windows)).
    rewrite (sum_values_perm _ _ _ Hperm). apply Hsum; [done|].
    intros s w. unfold window_record, bought. case_decide; cbn [buys]; [|lia].
    by rewrite sum_snoc.
  - rewrite Hws', sum_over_fmap.
    change (sum_over (fun a => sell_volume (analyze_window a)) (items_by_key windows))
      with (sum_values (fun w => Py.sum (sells w)) (items_by_key windows)).
    rewrite (sum_values_perm _ _ _ Hperm). apply Hsum; [done|].
    intros s w. unfold window_record, sold. case_decide; cbn [sells]; [lia|].
    by rewrite sum_snoc.
  - rewrite Hws', sum_over_fmap.
    change (sum_over (fun a => wp_buy_count (analyze_window a)
                               + wp_sell_count (analyze_window a)) (items_by_key windows))
      with (sum_values (fun w => Z.of_nat (length (buys w)) + Z.of_nat (length (sells w)))
                       (items_by_key windows)).
    rewrite (sum_values_perm _ _ _ Hperm).
    rewrite (Hsum _ (fun _ => 1)); [|done|].
    + clear. induction swaps as [|s swaps IH]; [done|]. rewrite total_cons, IH.
      simpl length. lia.
    + intros s w. unfold window_record. case_decide; cbn [buys sells];
        rewrite length_app; simpl; lia.
Qed.

End Buckets.

Lemma windows_partition_witness :
  ∃ ws, detect_accumulation_distribution day_key eight_hours 24 = Some ws ∧
        sum_over buy_volume ws = total bought eight_hours.
Proof.
  eexists. split; [reflexivity|].
  exact (proj1 (proj2 (proj2 (proj2 (proj2
    (windows_partition_the_stream day_key 24 eight_hours _ eq_refl)))))).
Defined.

(** ** The pattern summary *)

Lemma count_for_cons (q : Pattern) (x : Pattern * nat) (counts : list (Pattern * nat)) :
  count_for q (x :: counts) = if decide (x.1 = q) then x.2 else count_for q counts.
Proof. unfold count_for. simpl. by case_bool_decide; case_decide. Qed.

Lemma count_for_bump (q p : Pattern) (counts : list (Pattern * nat)) :
  count_for q (bump p counts)
  = (count_for q counts + if decide (q = p) then 1 else 0)%nat.
Proof.
  induction counts as [|[r n] counts IH]; cbn [bump].
  - rewrite count_for_cons. cbn [fst snd]. unfold count_for. simpl.
    destruct (decide (p = q)), (decide (q = p)); congruence.
  - destruct (decide (r = p)) as [->|Hrp]; rewrite !count_for_cons; cbn [fst snd].
    + destruct (decide (p = q)), (decide (q = p)); try congruence; lia.
    + rewrite IH. destruct (decide (r = q)) as [->|]; [|done].
      rewrite decide_False by done. lia.
Qed.

Lemma bump_keys (p : Pattern) (counts : list (Pattern * nat)) :
  (bump p counts).*1 = if decide (p ∈ counts.*1) then counts.*1 else counts.*1 ++ [p].
Proof.
  induction counts as [|[r n] counts IH]; cbn [bump].
  - rewrite decide_False; [done|]. apply not_elem_of_nil.
  - destruct (decide (r = p)) as [->|Hrp]; csimpl.
    + rewrite decide_True; [done|]. apply elem_of_cons. by left.
    + rewrite IH. destruct (decide (p ∈ counts.*1)).
      * rewrite decide_True; [done|]. apply elem_of_cons. by right.
      * rewrite decide_False; [done|]. rewrite elem_of_cons. intros [?|?]; done.
Qed.

Lemma bump_positive (p : Pattern) (counts : list (Pattern * nat)) :
  Forall (fun x => 1 ≤ x.2)%nat counts → Forall (fun x => 1 ≤ x.2)%nat (bump p counts).
Proof.
  induction 1 as [|[r n] counts Hn Hc IH]; cbn [bump].
  - by repeat constructor.
  - case_decide; constructor; simpl in *; try done; lia.
Qed.

Lemma bump_sum (p : Pattern) (counts : list (Pattern * nat)) :
  sum_list (bump p counts).*2 = S (sum_list counts.*2).
Proof.
  induction counts as [|[r n] counts IH]; cbn [bump]; [done|].
  case_decide; csimpl; [done|]. rewrite IH. lia.
Qed.

Lemma pattern_counts_facts (ws : list WindowPattern) :
  let counts := pattern_counts ws in
  NoDup counts.*1 ∧
  Forall (fun x => 1 ≤ x.2)%nat counts ∧
  sum_list counts.*2 = length ws ∧
  (∀ q, count_for q counts = length (filter (fun w => pattern w = q) ws)) ∧
  (∀ q, q ∈ counts.*1 ↔ ∃ w, w ∈ ws ∧ pattern w = q).
Proof.
  induction ws as [|w ws IH] using rev_ind.
  - split_and!; try done; [apply NoDup_nil_2|].
    intros q. split; [by intros ?%elem_of_nil | by intros (? & ?%elem_of_nil & _)].
  - unfold pattern_counts in *. rewrite fold_left_app. cbn [fold_left].
    cbv zeta in IH. destruct IH as (H1 & H2 & H3 & H4 & H5).
    set (counts := fold_left (fun counts w => bump (pattern w) counts) ws []) in *.
    split_and!.
    + rewrite bump_keys. case_decide; [done|].
      apply NoDup_app. split; [done|]. split; [|apply NoDup_singleton].
      intros x Hx Hx'. apply list_elem_of_singleton in Hx'. by subst.
    + by apply bump_positive.
    + rewrite bump_sum, H3, length_app. simpl. lia.
    + intros q. rewrite count_for_bump, H4, filter_app, length_app, filter_cons.
      destruct (decide (pattern w = q)), (decide (q = pattern w)); try congruence; done.
    + intros q. rewrite bump_keys. split.
      * intros Hq. assert (q ∈ counts.*1 ∨ q = pattern w) as [Hc| ->].
        { case_decide; [by left|]. apply elem_of_app in Hq as [?|Hq]; [by left|].
          right. by apply list_elem_of_singleton in Hq. }
        -- apply H5 in Hc as (w' & Hw' & Hp). exists w'.
           split; [apply elem_of_app; by left | done].
        -- exists w. split; [|done]. apply elem_of_app. right. by apply list_elem_of_singleton.
      * intros (w' & Hw' & <-). apply elem_of_app in Hw' as [Hw'|Hw'].
        -- assert (pattern w' ∈ counts.*1) by (apply H5; by exists w').
           case_decide; [done|]. apply elem_of_app. by left.
        -- apply list_elem_of_singleton in Hw' as ->.
           case_decide; [done|]. apply elem_of_app. right. by apply list_elem_of_singleton.
Qed.

Lemma max_by_count_facts (best : Pattern * nat) (items : list (Pattern * nat)) :
  max_by_count best items ∈ best :: items ∧
  ∀ x, x ∈ best :: items → (x.2 ≤ (max_by_count best items).2)%nat.
Proof.
  revert best. induction items as [|y items IH]; intros best; cbn [max_by_count].
  - split; [apply elem_of_cons; by left|].
    intros x Hx. apply list_elem_of_singleton in Hx as ->. done.
  - destruct (IH (if decide (best.2 < y.2)%nat then y else best)) as [IH1 IH2].
    split.
    + apply elem_of_cons in IH1 as [->|IH1].
      * case_decide; [apply elem_of_cons; right; apply elem_of_cons; by left
                     | apply elem_of_cons; by left].
      * apply elem_of_cons; right; apply elem_of_cons; by right.
    + intros x Hx.
      assert (Hb : ((if decide (best.2 < y.2)%nat then y else best).2
                    ≤ (max_by_count (if decide (best.2 < y.2)%nat then y else best)
                                    items).2)%nat)
        by (apply IH2, elem_of_cons; by left).
      apply elem_of_cons in Hx as [->|Hx]; [case_decide; simpl in *; lia|].
      apply elem_of_cons in Hx as [->|Hx]; [case_decide; simpl in *; lia|].
      apply IH2, elem_of_cons. by right.
Qed.

Lemma count_for_entry (q : Pattern) (n : nat) (counts : list (Pattern * nat)) :
  NoDup counts.*1 → (q, n) ∈ counts → count_for q counts = n.
Proof.
  induction counts as [|[r m] counts IH]; intros Hnd Hin; [by apply elem_of_nil in Hin|].
  csimpl in Hnd. apply NoDup_cons in Hnd as [Hr Hnd].
  rewrite count_for_cons. cbn [fst snd].
  apply elem_of_cons in Hin as [[= -> ->]|Hin].
  - by rewrite decide_True.
  - rewrite decide_False; [by apply IH|].
    intros ->. apply Hr. apply list_elem_of_fmap. by exists (q, n).
Qed.

Lemma filter_none {A} (P : A → Prop) `{!∀ x, Decision (P x)} (l : list A) :
  (∀ x, x ∈ l → ¬ P x) → filter P l = [].
Proof.
  induction l as [|x l IH]; intros Hl; [done|].
  rewrite filter_cons, decide_False by (apply Hl, elem_of_cons; by left).
  apply IH. intros y Hy. apply Hl, elem_of_cons. by right.
Qed.

Section Summary.

Variable window_key : Z → string → string.

Lemma windows_nonempty (window_hours : Z) (swaps : list Swap) (ws : list WindowPattern) :
  detect_accumulation_distribution window_key swaps window_hours = Some ws → ws ≠ [].
Proof.
  intros Hws.
  assert (Hws' : ws = analyze_window <$>
            items_by_key (fold_left (window_step window_key window_hours) swaps [])).
  { destruct swaps; [done|]. by injection Hws as <-. }
  assert (Hs : ∃ s, s ∈ swaps).
  { destruct swaps as [|s ?]; [done|]. exists s. apply elem_of_cons. by left. }
  destruct Hs as [s Hs].
  destruct (window_entries window_key window_hours swaps) as (Hnd & Hin & _).
  cbv zeta in *.
  destruct (items_by_key_facts _ Hnd) as [_ Hperm].
  intros Hnil. rewrite Hnil in Hws'. symmetry in Hws'. apply fmap_nil_inv in Hws'.
  rewrite Hws' in Hperm. apply Permutation_nil_l in Hperm.
  assert (Hk : window_key window_hours (datetime s)
               ∈ keys (fold_left (window_step window_key window_hours) swaps [])).
  { apply Hin. by exists s. }
  rewrite <- Hperm in Hk. by apply elem_of_nil in Hk.
Qed.

(** The summary of [detect_accumulation_distribution] counts the buckets
    by pattern: each pattern that occurs is listed once with the number of
    buckets that carry it, and the counts add up to the number of buckets.
    The dominant pattern is a pattern of greatest count; since a non-empty
    stream always has a bucket, it is never 'UNKNOWN'. *)
Theorem dominant_pattern_is_most_frequent (window_hours : Z) (swaps : list Swap)
    (p : Patterns) :
  detect_patterns window_key swaps window_hours = Some p →
  detect_accumulation_distribution window_key swaps window_hours = Some (windows p) ∧
  windows p ≠ [] ∧
  NoDup (pattern_summary p).*1 ∧
  sum_list (pattern_summary p).*2 = length (windows p) ∧
  (∀ q, count_for q (pattern_summary p)
        = length (filter (fun w => pattern w = q) (windows p))) ∧
  (∀ q n, (q, n) ∈ pattern_summary p →
          (1 ≤ n)%nat ∧ n = length (filter (fun w => pattern w = q) (windows p))) ∧
  ∃ d, dominant_pattern p = Some d ∧
       (∃ w, w ∈ windows p ∧ pattern w = d) ∧
       ∀ q, (count_for q (pattern_summary p) ≤ count_for d (pattern_summary p))%nat.
Proof.
  unfold detect_patterns. intros Hp.
  destruct (detect_accumulation_distribution window_key swaps window_hours)
    as [ws|] eqn:Hws; [|done].
  simpl in Hp. injection Hp as <-. cbn [windows pattern_summary dominant_pattern].
  pose proof (windows_nonempty _ _ _ Hws) as Hne.
  destruct (pattern_counts_facts ws) as (H1 & H2 & H3 & H4 & H5). cbv zeta in *.
  split_and!; try done.
  - intros q n Hin. split.
    + by apply (proj1 (Forall_forall _ _) H2 (q, n)).
    + rewrite <- H4. symmetry. by apply count_for_entry.
  - destruct (pattern_counts ws) as [|x items] eqn:Hc.
    { exfalso. destruct ws as [|w ws']; [done|].
      assert (Hin : pattern w ∈ ([] : list (Pattern * nat)).*1)
        by (apply H5; exists w; split; [apply elem_of_cons; by left | done]).
      by apply elem_of_nil in Hin. }
    cbn [dominant_of]. eexists. split; [done|].
    destruct (max_by_count_facts x items) as [Hmem Hmax].
    destruct (max_by_count x items) as [d n] eqn:Hd. cbn [fst].
    split.
    + apply H5. apply list_elem_of_fmap. by exists (d, n).
    + intros q. rewrite (count_for_entry d n) by done.
      destruct (decide (q ∈ (x :: items).*1)) as [Hq|Hq].
      * apply list_elem_of_fmap in Hq as ([q' m] & -> & Hq).
        rewrite (count_for_entry q' m) by done. by apply (Hmax (q', m)).
      * rewrite H4. assert (Hz : filter (fun w => pattern w = q) ws = []).
        { apply filter_none. intros w Hw Hpw. apply Hq, H5. by exists w. }
        rewrite Hz. simpl. lia.
Qed.

End Summary.

Lemma dominant_pattern_witness :
  ∃ p, detect_patterns day_key eight_hours 24 = Some p ∧ is_Some (dominant_pattern p).
Proof.
  eexists. split; [reflexivity|].
  destruct (dominant_pattern_is_most_frequent day_key 24 eight_hours _ eq_refl)
    as (_ & _ & _ & _ & _ & _ & d & Hd & _).
  by exists d.
Defined.

(** ** The report *)

Lemma floor_of_tenth (n : Z) : Qfloor (inject_Z n * 10 / 100) = n / 10.
Proof.
  unfold Qfloor, Qdiv, Qmult, Qinv, inject_Z. simpl.
  rewrite Z.mul_1_r. div_lia.
Qed.

Lemma identify_whales_length (wallet_activity : list (string * Wallet)) (pct : Q) :
  wallet_activity ≠ [] →
  Z.of_nat (length (identify_whales wallet_activity pct))
  = Z.min (Z.of_nat (length wallet_activity))
          (Z.max 1 (Qfloor (inject_Z (Z.of_nat (length wallet_activity)) * pct / 100))).
Proof.
  intros Hne. unfold identify_whales. destruct wallet_activity as [|kv rest]; [done|].
  assert (Hlen : length (sort_by_volume (volume_entry <$> kv :: rest))
                 = length (kv :: rest))
    by (rewrite sort_by_volume_perm; by rewrite length_fmap).
  rewrite length_fmap. unfold Py.slice_to, Py.slice_index.
  rewrite length_take, whale_count_floor, Hlen.
  destruct (Z.ltb_spec (1 `max` Qfloor (inject_Z (Z.of_nat (length (kv :: rest)))
                                          * pct / 100)) 0); lia.
Qed.

Lemma wallets_count (swaps : list Swap) :
  length (analyze_wallet_activity swaps) = length (remove_dups (recipient <$> swaps)).
Proof.
  destruct (wallet_entries swaps) as (Hnd & Hin & _). cbv zeta in *.
  rewrite <- (length_fmap fst (analyze_wallet_activity swaps)).
  apply Permutation_length, NoDup_Permutation; [done|apply NoDup_remove_dups|].
  intros k. rewrite elem_of_remove_dups. etrans; [apply Hin|]. split.
  - intros (s & H1 & <-). apply list_elem_of_fmap. by exists s.
  - intros (s & -> & H2)%list_elem_of_fmap. by exists s.
Qed.

Lemma remove_dups_length_le {A} `{EqDecision A} (l : list A) :
  (length (remove_dups l) ≤ length l)%nat.
Proof.
  apply submseteq_length, NoDup_submseteq; [apply NoDup_remove_dups|].
  intros x. by rewrite elem_of_remove_dups.
Qed.

Lemma head_take {A} (l : list A) (n : nat) : (0 < n)%nat → head (take n l) = head l.
Proof. intros Hn. destruct n; [lia|]. by destruct l. Qed.

Section Reports.

Variable window_key : Z → string → string.

(** [generate_report] summarises the stream it is given: the error
    report for no swaps, and otherwise the number of swaps, the number of
    distinct recipients (between 1 and the number of swaps), the metrics
    and the patterns of the same swaps, and the first
    [min(5, max(1, wallets // 10))] whales of the default 10 percent
    ranking.  The whale behaviour of the prediction is that of the first
    whale listed, and neither it nor the dominant pattern is 'UNKNOWN'. *)
Theorem report_summarises_the_stream (swaps : list Swap) :
  generate_report window_key [] = None ∧
  (swaps ≠ [] →
   ∃ r, generate_report window_key swaps = Some r ∧
     total_swaps r = length swaps ∧
     unique_wallets r = length (remove_dups (recipient <$> swaps)) ∧
     (1 ≤ unique_wallets r ≤ total_swaps r)%nat ∧
     compute_order_flow_metrics swaps = Some (metrics r) ∧
     detect_patterns window_key swaps 24 = Some (patterns r) ∧
     whales r `prefix_of` identify_whales (analyze_wallet_activity swaps) 10 ∧
     Z.of_nat (length (whales r))
       = Z.min 5 (Z.max 1 (Z.of_nat (unique_wallets r) / 10)) ∧
     whale_behavior (prediction r) = behavior <$> head (whales r) ∧
     is_Some (whale_behavior (prediction r)) ∧
     is_Some (dominant_pattern (patterns r))).
Proof.
  split; [done|]. intros Hne.
  assert (Hm : ∃ m, compute_order_flow_metrics swaps = Some m)
    by (rewrite compute_some by done; by eexists).
  destruct Hm as [m Hm].
  assert (Hws : ∃ ws, detect_accumulation_distribution window_key swaps 24 = Some ws)
    by (destruct swaps; [done|]; by eexists).
  destruct Hws as [ws Hws].
  pose proof (windows_nonempty window_key _ _ _ Hws) as Hwne.
  assert (Hwallets : analyze_wallet_activity swaps ≠ []).
  { destruct (wallet_entries swaps) as (_ & Hin & _). cbv zeta in Hin.
    destruct swaps as [|s swaps']; [done|].
    assert (Hk : recipient s ∈ keys (analyze_wallet_activity (s :: swaps')))
      by (apply Hin; exists s; split; [apply elem_of_cons; by left | done]).
    intros Hnil. rewrite Hnil in Hk. by apply elem_of_nil in Hk. }
  pose proof (identify_whales_length _ 10 Hwallets) as Hlen.
  rewrite floor_of_tenth in Hlen.
  pose proof (wallets_count swaps) as Hcount.
  pose proof (remove_dups_length_le (recipient <$> swaps)) as Hle.
  rewrite length_fmap in Hle.
  assert (Hpos : (1 ≤ length (analyze_wallet_activity swaps))%nat)
    by (destruct (analyze_wallet_activity swaps); [done|simpl; lia]).
  eexists. split.
  { unfold generate_report, detect_patterns. destruct swaps; [done|].
    rewrite Hm, Hws. reflexivity. }
  cbn [total_swaps unique_wallets metrics patterns whales prediction whale_behavior
       dominant_pattern].
  unfold Py.slice_to, Py.slice_index. cbn [Z.ltb Z.compare].
  split_and!; try done; try lia.
  - unfold detect_patterns. by rewrite Hws.
  - eexists. symmetry. apply take_drop.
  - rewrite length_take. div_lia.
  - rewrite head_take; [done|]. div_lia.
  - destruct (identify_whales (analyze_wallet_activity swaps) 10) as [|w ?];
      [simpl in Hlen; div_lia | by eexists].
  - destruct (pattern_counts_facts ws) as (_ & _ & _ & _ & H5). cbv zeta in H5.
    destruct (pattern_counts ws) as [|x items] eqn:Hc; [|by eexists].
    exfalso. destruct ws as [|w ws']; [done|].
    assert (Hin : pattern w ∈ ([] : list (Pattern * nat)).*1)
      by (apply H5; exists w; split; [apply elem_of_cons; by left | done]).
    by apply elem_of_nil in Hin.
Qed.

End Reports.

Lemma report_summarises_witness :
  eight_hours ≠ [] ∧
  ∃ r, generate_report day_key eight_hours = Some r ∧
       total_swaps r = length eight_hours.
Proof.
  split; [done|].
  destruct (report_summarises_the_stream day_key eight_hours) as [_ H].
  destruct (H ltac:(done)) as (r & Hr & Ht & _). by exists r.
Defined.

(** ** Loading *)








Section Load.

Variable newer_than_cutoff : string → option bool.



End Load.


(** ** The prediction *)






End OrderFlowMoreFacts.


(** * Further properties of the state normalizer *)

Module StateNormalizerMoreFacts.

Import StateNormalizer NormalizerSamples StateNormalizerFacts.

Local Open Scope Q_scope.

(** ** Range normalisation *)

Lemma scale_monotone (low high x x' : Q) :
  low < high → x <= x' → scale low high x <= scale low high x'.
Proof.
  intros Hlh Hx. rewrite !scale_in_range by done.
  assert (Hd : 0 < high - low) by (by apply Qlt_minus_iff in Hlh).
  unfold Qminus at 1 3. apply Qplus_le_l. unfold Qdiv.
  apply Qmult_le_compat_r; [|apply Qlt_le_weak, Qinv_lt_0_compat, Hd].
  apply Qmult_le_l; [done|]. unfold Qminus. by apply Qplus_le_l.
Qed.

Lemma np_clip_monotone (x x' lo hi : Q) :
  x <= x' → np_clip x lo hi <= np_clip x' lo hi.
Proof.
  intros Hx. unfold np_clip. apply Q.min_le_compat_r, Q.max_le_compat_r, Hx.
Qed.

Lemma np_clip_inside (x lo hi : Q) : lo <= x → x <= hi → np_clip x lo hi == x.
Proof.
  intros Hlo Hhi. unfold np_clip. rewrite Q.max_l by done. by apply Q.min_l.
Qed.

Lemma scale_inside (low high x : Q) :
  low < high → low <= x → x <= high →
  -1 <= scale low high x ∧ scale low high x <= 1.
Proof.
  intros Hlh Hlo Hhi. destruct (scale_endpoints low high Hlh) as [E1 E2]. split.
  - rewrite <- E1. by apply scale_monotone.
  - rewrite <- E2. by apply scale_monotone.
Qed.

Lemma ranges_lookup_ordered (i : nat) (low high : Q) :
  ranges !! i = Some (low, high) → low < high.
Proof.
  intros Hr. pose proof ranges_ordered as Ho.
  rewrite Forall_forall in Ho. apply (Ho (low, high)).
  by apply list_elem_of_lookup_2 in Hr.
Qed.

(** The shape of the result of [normalize_by_range]: it has the length of
    the state, also for a state shorter than the table of 35 ranges, and
    every slot from index 35 on is 0: features beyond the table are
    dropped, not passed through. *)
Theorem normalize_by_range_keeps_length (nz : Normalizer) (state : list Q) :
  length (normalize_by_range nz state) = length state ∧
  length ranges = 35%nat ∧
  ∀ i, (35 ≤ i < length state)%nat → normalize_by_range nz state !! i = Some 0.
Proof.
  split; [apply normalize_with_length|]. split; [done|].
  intros i [Hlo Hhi]. unfold normalize_by_range. rewrite normalize_with_lookup.
  destruct (lookup_lt_is_Some_2 state i Hhi) as [x ->]. simpl.
  rewrite (lookup_ge_None_2 ranges i); [done|]. simpl. lia.
Qed.

Lemma normalize_by_range_length_witness :
  (35 ≤ 35 < length (replicate 36 (5 : Q)))%nat ∧
  normalize_by_range fresh (replicate 36 5) !! 35%nat = Some 0.
Proof.
  assert (H : (35 ≤ 35 < length (replicate 36 (5 : Q)))%nat) by (simpl; lia).
  split; [exact H|].
  exact (proj2 (proj2 (normalize_by_range_keeps_length fresh (replicate 36 5))) 35%nat H).
Defined.

(** A feature inside its range is scaled linearly and not clipped: with
    [clip_range >= 1], slot [i] of [normalize_by_range] is
    [2 (x - low) / (high - low) - 1] for [low <= x <= high], a value in
    [-1, 1]. *)
Theorem normalize_by_range_is_linear_in_range
    (nz : Normalizer) (state : list Q) (i : nat) (x low high : Q) :
  ranges !! i = Some (low, high) → state !! i = Some x →
  low <= x → x <= high → 1 <= clip_range nz →
  ∃ y, normalize_by_range nz state !! i = Some y ∧
       y == 2 * (x - low) / (high - low) - 1 ∧ -1 <= y ∧ y <= 1.
Proof.
  intros Hr Hs Hlo Hhi Hc. eexists. split; [by apply normalize_by_range_slot|].
  pose proof (ranges_lookup_ordered i low high Hr) as Hlh.
  destruct (scale_inside low high x Hlh Hlo Hhi) as [H1 H2].
  assert (E : np_clip (scale low high x) (- clip_range nz) (clip_range nz)
              == scale low high x).
  { apply np_clip_inside.
    - eapply Qle_trans; [|exact H1]. exact (Qopp_le_compat 1 (clip_range nz) Hc).
    - eapply Qle_trans; [exact H2|done]. }
  rewrite E. split; [by apply scale_in_range|done].
Qed.

Lemma normalize_by_range_linear_witness :
  ∃ y, normalize_by_range fresh [1] !! 0%nat = Some y ∧ -1 <= y ∧ y <= 1.
Proof.
  destruct (normalize_by_range_is_linear_in_range fresh [1] 0 1 0.0001 1000)
    as (y & Hy & _ & Hb); [reflexivity|reflexivity|discriminate|discriminate|
                            discriminate|].
  by exists y.
Defined.

(** [normalize_by_range] is monotone in every feature: raising the input
    of a slot never lowers its output, whatever the clip range. *)
Theorem normalize_by_range_is_monotone
    (nz : Normalizer) (state state' : list Q) (i : nat) (x x' : Q) :
  state !! i = Some x → state' !! i = Some x' → x <= x' →
  ∃ y y', normalize_by_range nz state !! i = Some y ∧
          normalize_by_range nz state' !! i = Some y' ∧ y <= y'.
Proof.
  intros Hs Hs' Hx. unfold normalize_by_range.
  rewrite !normalize_with_lookup, Hs, Hs'. simpl.
  eexists _, _. split; [done|]. split; [done|].
  destruct (ranges !! i) as [[low high]|] eqn:Hr; [|apply Qle_refl].
  apply np_clip_monotone, scale_monotone; [|done].
  by apply (ranges_lookup_ordered i).
Qed.

Lemma normalize_by_range_monotone_witness :
  ∃ y y', normalize_by_range fresh [1] !! 0%nat = Some y ∧
          normalize_by_range fresh [2] !! 0%nat = Some y' ∧ y <= y'.
Proof.
  apply (normalize_by_range_is_monotone fresh [1] [2] 0 1 2);
    [reflexivity|reflexivity|discriminate].
Defined.

(** ** Running statistics *)


Lemma updates_lengths (nz : Normalizer) (states : list (list Q)) (n : nat) :
  length (mean nz) = n → length (var nz) = n →
  Forall (fun s : list Q => length s = n) states →
  length (mean (updates nz states)) = n ∧ length (var (updates nz states)) = n.
Proof.
  intros Hm Hv Hall. revert nz Hm Hv.
  induction Hall as [|s states Hs _ IH]; intros nz Hm Hv; [done|].
  change (updates nz (s :: states)) with (updates (update nz s) states).
  apply IH; unfold update; simpl; rewrite !length_zip_with; lia.
Qed.

Section RunningFacts.

Variable np_sqrt : Q → Q.



End RunningFacts.


(** What a sequence of [update] calls computes.  On a fresh normalizer of
    dimension [dim], after [n] observations of [dim] features: [mean] and
    [var] still have [dim] slots, the mean of slot [i] is the arithmetic
    mean of the slot's observations, var is 1 plus the sum of their
    squared deviations from it, and the radicand of [normalize_running]
    is [var / (n - 1) + 1e-8]. *)
Theorem update_tracks_mean_and_deviations
    (dim : Z) (clip : Q) (states : list (list Q)) (i : nat) :
  (i < Z.to_nat dim)%nat →
  Forall (fun s : list Q => length s = Z.to_nat dim) states →
  let nz := updates (init dim clip) states in
  let xs := column i states in
  length (mean nz) = Z.to_nat dim ∧ length (var nz) = Z.to_nat dim ∧
  ∃ m v, mean nz !! i = Some m ∧ var nz !! i = Some v ∧
         m == arithmetic_mean xs ∧
         v == 1 + squared_deviations xs m ∧
         radicand nz !! i = Some (v / inject_Z (Z.of_nat (length states) - 1) + 1e-8).
Proof.
  intros Hi Hall nz xs.
  destruct (updates_lengths (init dim clip) states (Z.to_nat dim)) as [Hlm Hlv];
    [apply length_replicate|apply length_replicate|done|].
  assert (Hall' : Forall (fun s : list Q => is_Some (s !! i)) states).
  { eapply Forall_impl; [exact Hall|]. intros s Hs. simpl in Hs.
    apply lookup_lt_is_Some_2. rewrite Hs. exact Hi. }
  destruct (updates_statistics dim clip states i Hi Hall') as (Hc & m & v & Hm & Hv & Em & Ev).
  split; [done|]. split; [done|]. exists m, v. split_and!; try done.
  subst nz. cbv zeta in *. unfold radicand. rewrite list_lookup_fmap, Hv. simpl.
  by rewrite Hc.
Qed.

Lemma update_tracks_witness :
  ∃ m, mean (updates (init 1 10) two_states) !! 0%nat = Some m ∧
       m == arithmetic_mean (column 0 two_states).
Proof.
  destruct (update_tracks_mean_and_deviations 1 10 two_states 0)
    as (_ & _ & m & v & Hm & _ & Em & _).
  - simpl. lia.
  - by repeat constructor.
  - by exists m.
Defined.

(** ** Persistence *)

(** [load] reads only the file it is given.  Saving to one path leaves
    what is loaded from any other path unchanged; of two saves to the
    same path the later one is read back; loading from a path with no
    file fails; and the result never depends on what the receiving
    object held before. *)
Theorem load_reads_only_its_file (nz nz' nz0 nz1 : Normalizer) (path other : string)
    (fs : gmap string (list (string * Json))) :
  (other ≠ path → load nz0 other (save nz path fs) = load nz0 other fs) ∧
  load nz0 path (save nz' path (save nz path fs)) = load nz0 path (save nz' path fs) ∧
  (fs !! path = None → load nz0 path fs = None) ∧
  load nz0 path fs = load nz1 path fs ∧
  save nz' path (save nz path fs) = save nz' path fs.
Proof.
  unfold load, save. split_and!; try done.
  - intros Hne. by rewrite lookup_insert_ne.
  - by rewrite insert_insert_eq.
  - by intros ->.
  - by rewrite insert_insert_eq.
Qed.

Lemma load_reads_witness :
  ("b.json"%string ≠ "a.json"%string) ∧
  load fresh "b.json" (save trained "a.json" ∅) = None.
Proof.
  assert (H : "b.json"%string ≠ "a.json"%string) by discriminate.
  split; [exact H|].
  destruct (load_reads_only_its_file trained trained fresh fresh "a.json" "b.json" ∅)
    as (Hother & _).
  rewrite (Hother H). reflexivity.
Defined.

End StateNormalizerMoreFacts.
